(** * EntityOwnerPicker data-fetching hooks: a shallow embedding

    This development embeds the two fetch callbacks of the
    EntityOwnerPicker component,

      - [useFacetsEntities] (useFacetsEntities.ts) with its helpers
        [decodeCursor], [encodeCursor] and [filterEntity], and
      - [useQueryEntities],

    together with the pieces of the JavaScript platform they call
    ([<], [includes], [trim], [toLocaleLowerCase], [sort], [slice],
    [btoa], [atob], [JSON.stringify], [JSON.parse]).

    Conventions.
      - A JavaScript string is the list of its UTF-16 code units
        ([jsstring]); a well-formed code unit is below 65536.
      - A JavaScript number that is used as an offset or a page size is an
        integer ([Z]); this is exact for safe integers.
      - An [async] function that resolves or rejects is a function into
        [result]: [Ok v] is a resolved promise (or a normal return),
        [Throw e] a rejected one (or a thrown exception).
      - The catalog client and the entity-reference parser are
        collaborators of the hooks; they are Section variables. *)

From Stdlib Require Import String Ascii.
From Stdlib Require Import List NArith ZArith Bool Lia.
From Stdlib Require Import Sorted Permutation.
From Stdlib Require Import DecimalN DecimalFacts.
Import ListNotations.

Set Implicit Arguments.
Set Warnings "-register-all".

(* ------------------------------------------------------------------ *)
(** ** Strings *)

Module JsString.

Definition codeunit := N.
Definition jsstring := list codeunit.

(** A string literal of the source, as code units. *)
Definition lit (s : string) : jsstring :=
  map N_of_ascii (list_ascii_of_string s).

Definition eqb (a b : jsstring) : bool :=
  if list_eq_dec N.eq_dec a b then true else false.

(** [a < b] on strings: lexicographic on code units, a proper prefix
    being smaller. *)
Fixpoint ltb (a b : jsstring) : bool :=
  match a, b with
  | _, [] => false
  | [], _ :: _ => true
  | x :: a', y :: b' =>
      if (x <? y)%N then true
      else if (x =? y)%N then ltb a' b'
      else false
  end.

(** [a > b] is [b < a]. *)
Definition gtb (a b : jsstring) : bool := ltb b a.

(** Truthiness of a string: the empty string is falsy. *)
Definition truthy (s : jsstring) : bool :=
  match s with [] => false | _ :: _ => true end.

(** [t] is a prefix of [s] ([s.startsWith(t)]). *)
Fixpoint startsWith (s t : jsstring) {struct t} : bool :=
  match t, s with
  | [], _ => true
  | _ :: _, [] => false
  | y :: t', x :: s' => (x =? y)%N && startsWith s' t'
  end.

(** [s.includes(t)]: [t] occurs in [s] at some position. *)
Fixpoint includes (s t : jsstring) : bool :=
  startsWith s t ||
  match s with
  | [] => false
  | _ :: s' => includes s' t
  end.

(** WhiteSpace and LineTerminator code points, the ones [trim] strips. *)
Definition isWhiteSpace (c : codeunit) : bool :=
  ((9 <=? c) && (c <=? 13) || (c =? 32) || (c =? 160) || (c =? 5760)
   || (8192 <=? c) && (c <=? 8202) || (c =? 8232) || (c =? 8233)
   || (c =? 8239) || (c =? 8287) || (c =? 12288) || (c =? 65279))%N.

Fixpoint trimStart (s : jsstring) : jsstring :=
  match s with
  | [] => []
  | c :: s' => if isWhiteSpace c then trimStart s' else s
  end.

Definition trimEnd (s : jsstring) : jsstring :=
  rev (trimStart (rev s)).

Definition trim (s : jsstring) : jsstring := trimEnd (trimStart s).

(** [toLocaleLowerCase('en-US')] on the Basic Latin and Latin-1 blocks.
    Code units above Latin-1 are left as they are: the source only
    compares the lowered string with ['group'] and ['user'], and no
    character outside A-Z lowers to one of the letters of these words. *)
Definition lowerUnit (c : codeunit) : codeunit :=
  (if (65 <=? c) && (c <=? 90) then c + 32
   else if (192 <=? c) && (c <=? 222) && negb (c =? 215) then c + 32
   else c)%N.

Definition toLocaleLowerCase (s : jsstring) : jsstring := map lowerUnit s.

End JsString.
Import JsString.

(* ------------------------------------------------------------------ *)
(** ** Results of fallible and asynchronous code *)

Inductive exn : Type :=
| InvalidCharacterError   (* atob / btoa *)
| SyntaxError             (* JSON.parse *)
| TypeError               (* a value of the wrong shape *)
| Rejected (reason : jsstring).   (* a failure of a collaborator *)

Inductive result (A : Type) : Type :=
| Ok (a : A)
| Throw (e : exn).
Arguments Ok {A} a.
Arguments Throw {A} e.

Definition bind {A B} (r : result A) (k : A -> result B) : result B :=
  match r with
  | Ok a => k a
  | Throw e => Throw e
  end.

Notation "x <- r ;; k" := (bind r (fun x => k))
  (at level 61, r at next level, right associativity).

(** [try { body } catch (err) { handler }]. *)
Definition try_catch {A} (body : result A) (handler : exn -> result A)
  : result A :=
  match body with
  | Ok a => Ok a
  | Throw e => handler e
  end.

(** [xs.map(f)] for a callback that may throw: the first failure, in
    index order, aborts the map. *)
Fixpoint mapM {A B} (f : A -> result B) (xs : list A) : result (list B) :=
  match xs with
  | [] => Ok []
  | x :: xs' => y <- f x ;; ys <- mapM f xs' ;; Ok (y :: ys)
  end.

(* ------------------------------------------------------------------ *)
(** ** Entities *)

(** Modelled from the spec: the [Entity] type belongs to the catalog
    model, which is not among the sources.  An entity has a [kind] and
    [metadata] with a [name] and an optional [namespace]; the fields the
    hooks never look at are left out. *)
Record Metadata : Type := mkMetadata {
  name : jsstring;
  namespace : option jsstring   (* [namespace?: string] *)
}.

Record Entity : Type := mkEntity {
  apiVersion : jsstring;
  kind : jsstring;
  metadata : Metadata
}.

(** [{ kind, namespace, name }], what [parseEntityRef] returns. *)
Record CompoundEntityRef : Type := mkRef {
  ref_kind : jsstring;
  ref_namespace : jsstring;
  ref_name : jsstring
}.

(** Truthiness of an optional string ([undefined] and [''] are falsy). *)
Definition truthyOpt (o : option jsstring) : bool :=
  match o with
  | Some s => truthy s
  | None => false
  end.

(* ------------------------------------------------------------------ *)
(** ** The sort comparator (useFacetsEntities.ts, lines 96-106) *)

Definition compareEntities (a b : Entity) : Z :=
  if ltb (kind a) (kind b) then (-1)%Z
  else if gtb (kind a) (kind b) then 1%Z
  else
    let byName :=
      if ltb (name (metadata a)) (name (metadata b)) then (-1)%Z
      else if gtb (name (metadata a)) (name (metadata b)) then 1%Z
      else 0%Z in
    match namespace (metadata a), namespace (metadata b) with
    | Some na, Some nb =>
        if truthy na && truthy nb then
          if ltb na nb then (-1)%Z
          else if gtb na nb then 1%Z
          else byName
        else byName
    | _, _ => byName
    end.

(** The three outcomes of the comparator, as relations on entities. *)
Definition entity_lt (a b : Entity) : Prop := compareEntities a b = (-1)%Z.
Definition entity_eq (a b : Entity) : Prop := compareEntities a b = 0%Z.
Definition entity_gt (a b : Entity) : Prop := compareEntities a b = 1%Z.

(** Whether the comparator looks at an entity's namespace at all. *)
Definition hasNamespace (e : Entity) : bool :=
  truthyOpt (namespace (metadata e)).

(* ------------------------------------------------------------------ *)
(** ** Arrays *)

(** [xs.slice(0, end)]: a negative [end] counts from the end of the
    array, and the window is clamped to the array. *)
Definition slice0 {A} (xs : list A) (end_ : Z) : list A :=
  let len := Z.of_nat (length xs) in
  let final :=
    if (end_ <? 0)%Z then Z.max (len + end_) 0 else Z.min end_ len in
  firstn (Z.to_nat final) xs.

(** [xs.sort(cmp)].  The sort of ECMAScript is stable; it is embedded as
    a stable insertion sort.  An element is put in front of the first
    element it does not compare greater than. *)
Fixpoint insertBy {A} (cmp : A -> A -> Z) (x : A) (sorted : list A)
  : list A :=
  match sorted with
  | [] => [x]
  | y :: ys => if (0 <? cmp x y)%Z then y :: insertBy cmp x ys
               else x :: sorted
  end.

Fixpoint sortBy {A} (cmp : A -> A -> Z) (xs : list A) : list A :=
  match xs with
  | [] => []
  | x :: xs' => insertBy cmp x (sortBy cmp xs')
  end.

(* ------------------------------------------------------------------ *)
(** ** [btoa] and [atob] *)

Module Base64.

(** The base64 alphabet: A-Z, a-z, 0-9, [+], [/]. *)
Definition alphabet (s : N) : codeunit :=
  (if s <? 26 then 65 + s
   else if s <? 52 then 97 + (s - 26)
   else if s <? 62 then 48 + (s - 52)
   else if s =? 62 then 43
   else 47)%N.

Definition sextet (c : codeunit) : option N :=
  (if (65 <=? c) && (c <=? 90) then Some (c - 65)
   else if (97 <=? c) && (c <=? 122) then Some (c - 97 + 26)
   else if (48 <=? c) && (c <=? 57) then Some (c - 48 + 52)
   else if c =? 43 then Some 62
   else if c =? 47 then Some 63
   else None)%N.

Definition pad : codeunit := 61%N.   (* '=' *)

Fixpoint encode (bs : list N) : jsstring :=
  match bs with
  | [] => []
  | [a] =>
      [alphabet (a / 4); alphabet ((a mod 4) * 16); pad; pad]
  | [a; b] =>
      [alphabet (a / 4); alphabet ((a mod 4) * 16 + b / 16);
       alphabet ((b mod 16) * 4); pad]
  | a :: b :: c :: rest =>
      alphabet (a / 4) :: alphabet ((a mod 4) * 16 + b / 16)
        :: alphabet ((b mod 16) * 4 + c / 64) :: alphabet (c mod 64)
        :: encode rest
  end%N.

(** [btoa(s)]: throws when a code unit does not fit a byte. *)
Definition btoa (s : jsstring) : result jsstring :=
  if forallb (fun c => (c <=? 255)%N) s then Ok (encode s)
  else Throw InvalidCharacterError.

Definition isAsciiWhitespace (c : codeunit) : bool :=
  ((c =? 9) || (c =? 10) || (c =? 12) || (c =? 13) || (c =? 32))%N.

(** Remove one or two [=] from the end of the data. *)
Definition stripPadding (d : jsstring) : jsstring :=
  match rev d with
  | p1 :: r1 =>
      if (p1 =? pad)%N then
        match r1 with
        | p2 :: r2 => if (p2 =? pad)%N then rev r2 else rev r1
        | [] => rev r1
        end
      else d
  | [] => d
  end.

Fixpoint sextets (d : jsstring) : option (list N) :=
  match d with
  | [] => Some []
  | c :: d' =>
      match sextet c, sextets d' with
      | Some s, Some ss => Some (s :: ss)
      | _, _ => None
      end
  end.

Fixpoint decode (ss : list N) : list N :=
  match ss with
  | s1 :: s2 :: s3 :: s4 :: rest =>
      (s1 * 4 + s2 / 16) :: ((s2 mod 16) * 16 + s3 / 4)
        :: ((s3 mod 4) * 64 + s4) :: decode rest
  | [s1; s2; s3] => [s1 * 4 + s2 / 16; (s2 mod 16) * 16 + s3 / 4]
  | [s1; s2] => [s1 * 4 + s2 / 16]
  | _ => []
  end%N.

(** [atob(data)], the forgiving base64 decode: white space is dropped,
    padding is optional, a length of 1 modulo 4 and a character outside
    the alphabet are errors. *)
Definition atob (data : jsstring) : result jsstring :=
  let d := filter (fun c => negb (isAsciiWhitespace c)) data in
  let d := if (length d mod 4 =? 0)%nat then stripPadding d else d in
  if (length d mod 4 =? 1)%nat then Throw InvalidCharacterError
  else
    match sextets d with
    | Some ss => Ok (decode ss)
    | None => Throw InvalidCharacterError
    end.

(** The sextets of a byte string, and the characters that stand for
    them: the encoding without its padding. *)
Fixpoint sextetsOf (bs : list N) : list N :=
  match bs with
  | [] => []
  | [a] => [a / 4; (a mod 4) * 16]
  | [a; b] => [a / 4; (a mod 4) * 16 + b / 16; (b mod 16) * 4]
  | a :: b :: c :: rest =>
      a / 4 :: (a mod 4) * 16 + b / 16 :: (b mod 16) * 4 + c / 64
        :: c mod 64 :: sextetsOf rest
  end%N.

Definition padding (bs : list N) : jsstring :=
  match (length bs mod 3)%nat with
  | 1%nat => [pad; pad]
  | 2%nat => [pad]
  | _ => []
  end.

End Base64.

(* ------------------------------------------------------------------ *)
(** ** [JSON.stringify] and [JSON.parse] *)

(** The decoded cursor of the facets hook (type [FacetsCursor]). *)
Record FacetsCursor : Type := mkCursor {
  start : Z;
  text : jsstring
}.

Module Json.

Inductive json : Type :=
| JNull
| JBool (b : bool)
| JNum (z : Z)          (* a number literal without fraction or exponent *)
| JReal                 (* any other number literal *)
| JStr (s : jsstring)
| JArr (xs : list json)
| JObj (members : list (jsstring * json)).

(** *** Writing *)

Definition hexDigit (d : N) : codeunit :=
  (if d <? 10 then 48 + d else 87 + d)%N.

(** [\uXXXX], four lower-case hexadecimal digits. *)
Definition unicodeEscape (c : codeunit) : jsstring :=
  [92; 117; hexDigit (c / 4096); hexDigit ((c / 256) mod 16);
   hexDigit ((c / 16) mod 16); hexDigit (c mod 16)]%N.

Definition isHighSurrogate (c : codeunit) : bool :=
  ((55296 <=? c) && (c <=? 56319))%N.
Definition isLowSurrogate (c : codeunit) : bool :=
  ((56320 <=? c) && (c <=? 57343))%N.

(** One code unit that is not the first half of a surrogate pair. *)
Definition quoteUnit (c : codeunit) : jsstring :=
  (if c =? 8 then [92; 98]            (* \b *)
   else if c =? 9 then [92; 116]      (* \t *)
   else if c =? 10 then [92; 110]     (* \n *)
   else if c =? 12 then [92; 102]     (* \f *)
   else if c =? 13 then [92; 114]     (* \r *)
   else if c =? 34 then [92; 34]      (* escaped quote *)
   else if c =? 92 then [92; 92]      (* escaped backslash *)
   else if (c <? 32) || isHighSurrogate c || isLowSurrogate c
        then unicodeEscape c
   else [c])%N.

(** The characters of a quoted string: a surrogate pair is kept, a lone
    surrogate and a control character are escaped. *)
Fixpoint quoteChars (s : jsstring) : jsstring :=
  match s with
  | [] => []
  | c :: rest =>
      if isHighSurrogate c then
        match rest with
        | d :: rest' =>
            if isLowSurrogate d then c :: d :: quoteChars rest'
            else quoteUnit c ++ quoteChars rest
        | [] => quoteUnit c ++ quoteChars rest
        end
      else quoteUnit c ++ quoteChars rest
  end.

Definition quote (s : jsstring) : jsstring :=
  [34%N] ++ quoteChars s ++ [34%N].

Fixpoint uintUnits (d : Decimal.uint) : jsstring :=
  match d with
  | Decimal.Nil => []
  | Decimal.D0 d' => 48 :: uintUnits d'
  | Decimal.D1 d' => 49 :: uintUnits d'
  | Decimal.D2 d' => 50 :: uintUnits d'
  | Decimal.D3 d' => 51 :: uintUnits d'
  | Decimal.D4 d' => 52 :: uintUnits d'
  | Decimal.D5 d' => 53 :: uintUnits d'
  | Decimal.D6 d' => 54 :: uintUnits d'
  | Decimal.D7 d' => 55 :: uintUnits d'
  | Decimal.D8 d' => 56 :: uintUnits d'
  | Decimal.D9 d' => 57 :: uintUnits d'
  end%N.

(** An integer in decimal, with [-] in front of a negative one. *)
Definition numberToString (z : Z) : jsstring :=
  match z with
  | Z0 => [48%N]
  | Zpos p => uintUnits (N.to_uint (Npos p))
  | Zneg p => 45%N :: uintUnits (N.to_uint (Npos p))
  end.

(** [JSON.stringify(payload)] for a payload [{ text, start }]: the keys
    in the order the object literal lists them. *)
Definition stringify (payload : FacetsCursor) : jsstring :=
  lit "{" ++ quote (lit "text") ++ lit ":" ++ quote (text payload)
    ++ lit "," ++ quote (lit "start") ++ lit ":"
    ++ numberToString (start payload) ++ lit "}".

(** *** Reading *)

Definition isJsonWhitespace (c : codeunit) : bool :=
  ((c =? 32) || (c =? 9) || (c =? 10) || (c =? 13))%N.

Fixpoint skipWs (inp : jsstring) : jsstring :=
  match inp with
  | [] => []
  | c :: r => if isJsonWhitespace c then skipWs r else inp
  end.

Definition hexValue (c : codeunit) : option N :=
  (if (48 <=? c) && (c <=? 57) then Some (c - 48)
   else if (97 <=? c) && (c <=? 102) then Some (c - 87)
   else if (65 <=? c) && (c <=? 70) then Some (c - 55)
   else None)%N.

(** The character a one-letter escape stands for. *)
Definition unescape (e : codeunit) : option codeunit :=
  (if e =? 34 then Some 34
   else if e =? 92 then Some 92
   else if e =? 47 then Some 47
   else if e =? 98 then Some 8
   else if e =? 102 then Some 12
   else if e =? 110 then Some 10
   else if e =? 114 then Some 13
   else if e =? 116 then Some 9
   else None)%N.

Definition consChar (c : codeunit) (r : option (jsstring * jsstring))
  : option (jsstring * jsstring) :=
  match r with
  | Some (s, rest) => Some (c :: s, rest)
  | None => None
  end.

(** The characters of a string literal up to its closing quote, and the
    input after it. *)
Fixpoint parseChars (inp : jsstring) : option (jsstring * jsstring) :=
  match inp with
  | [] => None
  | c :: r =>
      if (c =? 34)%N then Some ([], r)
      else if (c =? 92)%N then
        match r with
        | [] => None
        | e :: r1 =>
            if (e =? 117)%N then
              match r1 with
              | h1 :: h2 :: h3 :: h4 :: r2 =>
                  match hexValue h1, hexValue h2, hexValue h3, hexValue h4
                  with
                  | Some a, Some b, Some c', Some d =>
                      consChar (a * 4096 + b * 256 + c' * 16 + d)%N
                               (parseChars r2)
                  | _, _, _, _ => None
                  end
              | _ => None
              end
            else
              match unescape e with
              | Some u => consChar u (parseChars r1)
              | None => None
              end
        end
      else if (c <? 32)%N then None
      else consChar c (parseChars r)
  end.

Definition isDigit (c : codeunit) : bool := ((48 <=? c) && (c <=? 57))%N.

Definition consDigit (c : codeunit) (d : Decimal.uint) : Decimal.uint :=
  (if c =? 48 then Decimal.D0 d
   else if c =? 49 then Decimal.D1 d
   else if c =? 50 then Decimal.D2 d
   else if c =? 51 then Decimal.D3 d
   else if c =? 52 then Decimal.D4 d
   else if c =? 53 then Decimal.D5 d
   else if c =? 54 then Decimal.D6 d
   else if c =? 55 then Decimal.D7 d
   else if c =? 56 then Decimal.D8 d
   else Decimal.D9 d)%N.

(** The longest run of digits at the head of the input. *)
Fixpoint takeDigits (inp : jsstring) : Decimal.uint * jsstring :=
  match inp with
  | [] => (Decimal.Nil, [])
  | c :: r =>
      if isDigit c then
        let (d, rest) := takeDigits r in (consDigit c d, rest)
      else (Decimal.Nil, inp)
  end.

(** The integer part of a number: [0], or a run of digits that does not
    start with [0]. *)
Definition parseInt (inp : jsstring) : option (N * jsstring) :=
  match inp with
  | [] => None
  | c :: r =>
      if (c =? 48)%N then Some (0%N, r)
      else if isDigit c then
        let (d, rest) := takeDigits inp in Some (N.of_uint d, rest)
      else None
  end.

(** At least one digit. *)
Definition skipDigits (inp : jsstring) : option jsstring :=
  match takeDigits inp with
  | (Decimal.Nil, _) => None
  | (_, rest) => Some rest
  end.

(** An optional fraction [.digits] and an optional exponent
    [e(+|-)digits]; the flag tells whether there was either. *)
Definition parseFracExp (inp : jsstring) : option (bool * jsstring) :=
  let afterFrac :=
    match inp with
    | c :: r =>
        if (c =? 46)%N then option_map (pair true) (skipDigits r)
        else Some (false, inp)
    | [] => Some (false, inp)
    end in
  match afterFrac with
  | None => None
  | Some (frac, r1) =>
      match r1 with
      | c :: r2 =>
          if (c =? 101)%N || (c =? 69)%N then
            let r3 :=
              match r2 with
              | s :: r' => if (s =? 43)%N || (s =? 45)%N then r' else r2
              | [] => r2
              end in
            option_map (pair true) (skipDigits r3)
          else Some (frac, r1)
      | [] => Some (frac, r1)
      end
  end.

Definition parseNumber (inp : jsstring) : option (json * jsstring) :=
  let (negative, r) :=
    match inp with
    | c :: r' => if (c =? 45)%N then (true, r') else (false, inp)
    | [] => (false, inp)
    end in
  match parseInt r with
  | None => None
  | Some (n, r1) =>
      match parseFracExp r1 with
      | None => None
      | Some (true, r2) => Some (JReal, r2)
      | Some (false, r2) =>
          Some (JNum (if negative then - Z.of_N n else Z.of_N n)%Z, r2)
      end
  end.

(** [inp] without the prefix [w], when it starts with it. *)
Fixpoint dropPrefix (w inp : jsstring) : option jsstring :=
  match w, inp with
  | [], _ => Some inp
  | _ :: _, [] => None
  | x :: w', y :: inp' => if (x =? y)%N then dropPrefix w' inp' else None
  end.

Section Containers.

Variable parseValue : jsstring -> option (json * jsstring).

(** The elements of an array after the first one was found to be there:
    [value (, value)* ]]. *)
Fixpoint parseElements (n : nat) (inp : jsstring)
  : option (list json * jsstring) :=
  match n with
  | O => None
  | S n' =>
      match parseValue inp with
      | None => None
      | Some (v, r) =>
          match skipWs r with
          | c :: r1 =>
              if (c =? 44)%N then
                match parseElements n' r1 with
                | Some (vs, r2) => Some (v :: vs, r2)
                | None => None
                end
              else if (c =? 93)%N then Some ([v], r1)
              else None
          | [] => None
          end
      end
  end.

(** The members of an object after the first one was found to be
    there: [key : value (, key : value)* }], each key a string literal. *)
Fixpoint parseMembers (n : nat) (inp : jsstring)
  : option (list (jsstring * json) * jsstring) :=
  match n with
  | O => None
  | S n' =>
      match skipWs inp with
      | q :: r =>
          if (q =? 34)%N then
            match parseChars r with
            | None => None
            | Some (key, r1) =>
                match skipWs r1 with
                | c :: r2 =>
                    if (c =? 58)%N then
                      match parseValue r2 with
                      | None => None
                      | Some (v, r3) =>
                          match skipWs r3 with
                          | s :: r4 =>
                              if (s =? 44)%N then
                                match parseMembers n' r4 with
                                | Some (ms, r5) => Some ((key, v) :: ms, r5)
                                | None => None
                                end
                              else if (s =? 125)%N then Some ([(key, v)], r4)
                              else None
                          | [] => None
                          end
                      end
                    else None
                | [] => None
                end
            end
          else None
      | [] => None
      end
  end.

End Containers.

(** A JSON value at the head of the input, after optional white space.
    [fuel] bounds the nesting depth and the number of members. *)
Fixpoint parseValue (fuel : nat) (inp : jsstring)
  : option (json * jsstring) :=
  match fuel with
  | O => None
  | S f =>
      match skipWs inp with
      | [] => None
      | c :: r =>
          if (c =? 34)%N then
            match parseChars r with
            | Some (s, r1) => Some (JStr s, r1)
            | None => None
            end
          else if (c =? 123)%N then
            match skipWs r with
            | c1 :: r1 =>
                if (c1 =? 125)%N then Some (JObj [], r1)
                else
                  match parseMembers (parseValue f) f r with
                  | Some (ms, r2) => Some (JObj ms, r2)
                  | None => None
                  end
            | [] => None
            end
          else if (c =? 91)%N then
            match skipWs r with
            | c1 :: r1 =>
                if (c1 =? 93)%N then Some (JArr [], r1)
                else
                  match parseElements (parseValue f) f r with
                  | Some (vs, r2) => Some (JArr vs, r2)
                  | None => None
                  end
            | [] => None
            end
          else if (c =? 116)%N then
            option_map (pair (JBool true)) (dropPrefix (lit "rue") r)
          else if (c =? 102)%N then
            option_map (pair (JBool false)) (dropPrefix (lit "alse") r)
          else if (c =? 110)%N then
            option_map (pair JNull) (dropPrefix (lit "ull") r)
          else parseNumber (c :: r)
      end
  end.

(** [JSON.parse(s)]: one value, white space around it, nothing else. *)
Definition parse (s : jsstring) : result json :=
  match parseValue (S (length s)) s with
  | Some (v, rest) =>
      match skipWs rest with
      | [] => Ok v
      | _ :: _ => Throw SyntaxError
      end
  | None => Throw SyntaxError
  end.

(** [obj[key]]: of several members with one key the last one counts. *)
Fixpoint getMember (key : jsstring) (members : list (jsstring * json))
  : option json :=
  match members with
  | [] => None
  | (k, v) :: ms =>
      match getMember key ms with
      | Some v' => Some v'
      | None => if JsString.eqb k key then Some v else None
      end
  end.

(** The parsed value as a [FacetsCursor].  The source asserts this type
    without a check.  A value that is not an object whose [text] is a
    string and whose [start] is an integer is outside the type; the
    embedding reports it as a [TypeError], also where the source would
    go on with it, as for a [start] written with a fraction or an
    exponent.  No cursor that [encodeCursor] emits is of that kind. *)
Definition asFacetsCursor (v : json) : result FacetsCursor :=
  match v with
  | JObj ms =>
      match getMember (lit "text") ms, getMember (lit "start") ms with
      | Some (JStr t), Some (JNum z) => Ok (mkCursor z t)
      | _, _ => Throw TypeError
      end
  | _ => Throw TypeError
  end.

(** Input that does not go on with a digit. *)
Definition noDigitAhead (rest : jsstring) : Prop :=
  match rest with
  | [] => True
  | c :: _ => isDigit c = false
  end.

(** Input at which a number literal ends. *)
Definition endsNumber (rest : jsstring) : Prop :=
  match rest with
  | [] => True
  | c :: _ => isDigit c = false /\ c <> 46%N /\ c <> 101%N /\ c <> 69%N
  end.

End Json.

(* ------------------------------------------------------------------ *)
(** ** Requests, responses and the catalog client *)

(** Modelled from the spec: the type [CombinedRequest] is declared in
    useFetchEntities.ts, which is not among the sources.  A request is
    either an initial request carrying the free text, or a continuation
    request carrying an opaque cursor string and the items accumulated
    so far. *)
Inductive CombinedRequest : Type :=
| InitialRequest (text : jsstring)
| ContinuationRequest (cursor : jsstring) (items : list Entity).

(** [FacetsEntitiesResponse], [QueryEntitiesResponse] and the
    [CombinedResponse] they are both returned as. *)
Record CombinedResponse : Type := mkResponse {
  items : list Entity;
  cursor : option jsstring   (* [cursor?: string] *)
}.

(** [options?: { limit?: number }]. *)
Record FetchOptions : Type := mkOptions {
  limit : option Z
}.

(** [options?.limit ?? 20]. *)
Definition limitOf (options : option FetchOptions) : Z :=
  match options with
  | Some o => match limit o with Some l => l | None => 20%Z end
  | None => 20%Z
  end.

(** Modelled from the spec: the two operations of the catalog client,
    which is not among the sources, with the shapes of their requests
    and responses.  First the facet operation. *)
Record FacetFilter : Type := mkFacetFilter {
  key : jsstring;
  values : list jsstring
}.

Record FacetsRequest : Type := mkFacetsRequest {
  req_facets : list jsstring;
  req_filter : option (list FacetFilter)
}.

Record FacetValue : Type := mkFacetValue {
  value : jsstring;
  count : Z
}.

Record FacetsResponse : Type := mkFacetsResponse {
  facets : list (jsstring * list FacetValue)
}.

(** The query operation of the catalog client. *)
Record FullTextFilter : Type := mkFullTextFilter {
  term : jsstring;
  fields : list jsstring
}.

Record OrderField : Type := mkOrderField {
  field : jsstring;
  order : jsstring
}.

Record QueryRequest : Type := mkQueryRequest {
  q_cursor : option jsstring;
  q_fullTextFilter : option FullTextFilter;
  q_filter : option (list (jsstring * list jsstring));
  q_orderFields : option (list OrderField);
  q_limit : Z
}.

Record PageInfo : Type := mkPageInfo {
  nextCursor : option jsstring
}.

Record QueryResponse : Type := mkQueryResponse {
  q_items : list Entity;
  pageInfo : PageInfo
}.

(** The catalog client, as the hooks see it: each operation answers a
    request with a value or fails. *)
Record CatalogApi : Type := mkCatalogApi {
  getEntityFacets : FacetsRequest -> result FacetsResponse;
  queryEntities : QueryRequest -> result QueryResponse
}.

(** [obj[key]] on the facets object of a response. *)
Fixpoint getFacet (name : jsstring) (fs : list (jsstring * list FacetValue))
  : option (list FacetValue) :=
  match fs with
  | [] => None
  | (k, vs) :: fs' => if JsString.eqb k name then Some vs else getFacet name fs'
  end.

(* ------------------------------------------------------------------ *)
(** ** useFacetsEntities.ts *)

(** [decodeCursor] (lines 138-146). *)
Definition decodeCursor (request : CombinedRequest) : result FacetsCursor :=
  match request with
  | ContinuationRequest cursor _ =>
      s <- Base64.atob cursor ;;
      v <- Json.parse s ;;
      Json.asFacetsCursor v
  | InitialRequest text =>
      Ok {| text := if truthy text then text else lit ""; start := 0 |}
  end.

(** [encodeCursor] (lines 148-161): [Some c] is [{ cursor: c }], [None]
    is [{}]. *)
Definition encodeCursor (entities : list Entity) (limit : Z)
    (payload : FacetsCursor) : result (option jsstring) :=
  if (limit <? Z.of_nat (length entities))%Z then
    c <- Base64.btoa (Json.stringify payload) ;;
    Ok (Some c)
  else Ok None.

(** [filterEntity] (lines 163-170). *)
Definition filterEntity (text : jsstring) (entity : Entity) : bool :=
  let normalizedText := trim text in
  includes (kind entity) normalizedText
  || match namespace (metadata entity) with
     | Some ns => includes ns normalizedText
     | None => false
     end
  || includes (name (metadata entity)) normalizedText.

Definition facet : jsstring := lit "relations.ownedBy".

(** The server-side filter (lines 66-74). *)
Definition filterObj (selectedKind : option jsstring)
  : option (list FacetFilter) :=
  match selectedKind with
  | Some k =>
      if truthy k then
        let lower := toLocaleLowerCase k in
        if JsString.eqb lower (lit "group") || JsString.eqb lower (lit "user")
        then Some [ {| key := lit "kind"; values := [k] |} ]
        else None
      else None
  | None => None
  end.

(** The request sent to the facet operation (lines 77-80). *)
Definition facetsRequest (selectedKind : option jsstring) : FacetsRequest :=
  {| req_facets := [facet]; req_filter := filterObj selectedKind |}.

(** [response.facets[facet]?.map(e => e.value) ?? []] (line 82). *)
Definition rawList (response : FacetsResponse) : list jsstring :=
  match getFacet facet (facets response) with
  | Some vs => map value vs
  | None => []
  end.

(** What the callback has in hand at line 108: the sorted list, the
    search text and the end offset of the slice window. *)
Record Window : Type := mkWindow {
  sortedItems : list Entity;
  w_text : jsstring;
  w_start : Z;
  w_end : Z
}.

(** The response built from it (lines 109-117). *)
Definition respond (w : Window) : result CombinedResponse :=
  c <- encodeCursor (sortedItems w) (w_end w)
         {| text := w_text w; start := w_end w |} ;;
  Ok {| items := slice0 (sortedItems w) (w_end w); cursor := c |}.

Definition emptyResponse : CombinedResponse :=
  {| items := []; cursor := None |}.

Section Hooks.

Variable catalogApi : CatalogApi.
Variable parseEntityRef : jsstring -> result CompoundEntityRef.

(** The entity stub built from a facet value (lines 83-90). *)
Definition entityOfRef (ref : jsstring) : result Entity :=
  r <- parseEntityRef ref ;;
  Ok {| apiVersion := lit "backstage.io/v1beta1";
        kind := ref_kind r;
        metadata := {| name := ref_name r;
                       namespace := Some (ref_namespace r) |} |}.

(** Lines 77-108 of the callback. *)
Definition fetchWindow (selectedKind : option jsstring)
    (request : CombinedRequest) (options : option FetchOptions)
  : result Window :=
  response <- getEntityFacets catalogApi (facetsRequest selectedKind) ;;
  facets <- mapM entityOfRef (rawList response) ;;
  let limit := limitOf options in
  c <- decodeCursor request ;;
  let filteredRefs := filter (filterEntity (text c)) facets in
  let sortedItems := sortBy compareEntities filteredRefs in
  Ok {| sortedItems := sortedItems; w_text := text c;
        w_start := start c; w_end := start c + limit |}.

(** The body of the [try] block (lines 77-117). *)
Definition fetchBody (selectedKind : option jsstring)
    (request : CombinedRequest) (options : option FetchOptions)
  : result CombinedResponse :=
  w <- fetchWindow selectedKind request options ;;
  respond w.

(** The callback of [useFacetsEntities] (lines 60-121). *)
Definition useFacetsEntities (enabled : bool)
    (selectedKind : option jsstring)
    (request : CombinedRequest) (options : option FetchOptions)
  : result CombinedResponse :=
  if negb enabled || negb (truthyOpt selectedKind) then Ok emptyResponse
  else
    try_catch (fetchBody selectedKind request options)
              (fun _ => Ok emptyResponse).

(* ------------------------------------------------------------------ *)
(** ** useQueryEntities *)

(** The callback of [useQueryEntities]. *)
Definition useQueryEntities (request : CombinedRequest)
    (options : option FetchOptions) : result CombinedResponse :=
  let limit := limitOf options in
  match request with
  | ContinuationRequest cursor items =>
      response <- queryEntities catalogApi
        {| q_cursor := Some cursor; q_fullTextFilter := None;
           q_filter := None; q_orderFields := None; q_limit := limit |} ;;
      Ok {| cursor := nextCursor (pageInfo response);
            items := items ++ q_items response |}
  | InitialRequest text =>
      response <- queryEntities catalogApi
        {| q_cursor := None;
           q_fullTextFilter :=
             Some {| term := text;
                     fields := [lit "metadata.name"; lit "kind";
                                lit "spec.profile.displayname";
                                lit "metadata.title"] |};
           q_filter := Some [(lit "kind", [lit "User"; lit "Group"])];
           q_orderFields :=
             Some [ {| field := lit "metadata.name"; order := lit "asc" |} ];
           q_limit := limit |} ;;
      Ok {| cursor := nextCursor (pageInfo response);
            items := q_items response |}
  end.

End Hooks.

(* ------------------------------------------------------------------ *)
(** ** Notions the properties are stated with *)

(** Exactly one of three propositions holds. *)
Definition exactlyOne (P Q R : Prop) : Prop :=
  (P /\ ~ Q /\ ~ R) \/ (~ P /\ Q /\ ~ R) \/ (~ P /\ ~ Q /\ R).

(** [t] occurs in [s] as a contiguous run of code units. *)
Definition isSubstring (t s : jsstring) : Prop :=
  exists pre post, s = pre ++ t ++ post.

(** The text filter as the specification words it: the trimmed text is
    a substring of the kind, of the namespace when there is one, or of
    the name. *)
Definition keptBySpec (text : jsstring) (e : Entity) : Prop :=
  isSubstring (trim text) (kind e)
  \/ (exists ns, namespace (metadata e) = Some ns
                 /\ isSubstring (trim text) ns)
  \/ isSubstring (trim text) (name (metadata e)).

(** A cursor string that is not base64-encoded JSON: [atob] rejects it,
    or [JSON.parse] rejects what [atob] returns. *)
Definition notBase64Json (cursor : jsstring) : Prop :=
  (exists e, Base64.atob cursor = Throw e)
  \/ (exists s e, Base64.atob cursor = Ok s /\ Json.parse s = Throw e).

(** A step of the facet fetch throws: the network call, the parsing of
    a facet value, or the decoding of the cursor. *)
Definition stepThrows (catalogApi : CatalogApi)
    (parseEntityRef : jsstring -> result CompoundEntityRef)
    (selectedKind : option jsstring) (request : CombinedRequest) : Prop :=
  (exists e, getEntityFacets catalogApi (facetsRequest selectedKind) = Throw e)
  \/ (exists response ref e,
        getEntityFacets catalogApi (facetsRequest selectedKind) = Ok response
        /\ In ref (rawList response) /\ parseEntityRef ref = Throw e)
  \/ (exists e, decodeCursor request = Throw e).

(** The three ways two strings compare. *)
Inductive strOrder (a b : jsstring) : Prop :=
| strLess : ltb a b = true -> ltb b a = false -> strOrder a b
| strSame : a = b -> strOrder a b
| strMore : ltb a b = false -> ltb b a = true -> strOrder a b.

(** A string of bytes: what [btoa] accepts. *)
Definition isByteString (s : jsstring) : Prop :=
  Forall (fun c => (c <= 255)%N) s.

(* ------------------------------------------------------------------ *)
(** ** Sample collaborators and data *)

Module Sample.

Definition stub (k ns n : string) : Entity :=
  {| apiVersion := lit "backstage.io/v1beta1";
     kind := lit k;
     metadata := {| name := lit n; namespace := Some (lit ns) |} |}.

(** An entity without a namespace. *)
Definition bare (k n : string) : Entity :=
  {| apiVersion := lit "backstage.io/v1beta1";
     kind := lit k;
     metadata := {| name := lit n; namespace := None |} |}.

(** The part of [s] before the first [sep], and the part after it. *)
Fixpoint splitAt (sep : codeunit) (s : jsstring)
  : option (jsstring * jsstring) :=
  match s with
  | [] => None
  | c :: r =>
      if (c =? sep)%N then Some ([], r)
      else
        match splitAt sep r with
        | Some (a, b) => Some (c :: a, b)
        | None => None
        end
  end.

(** A parser for full references [kind:namespace/name]; anything else
    is malformed. *)
Definition parseFullRef (ref : jsstring) : result CompoundEntityRef :=
  match splitAt 58%N ref with
  | Some (k, r) =>
      match splitAt 47%N r with
      | Some (ns, n) =>
          if truthy k && truthy ns && truthy n
          then Ok {| ref_kind := k; ref_namespace := ns; ref_name := n |}
          else Throw TypeError
      | None => Throw TypeError
      end
  | None => Throw TypeError
  end.

Definition owners : list FacetValue :=
  [ {| value := lit "user:default/bob"; count := 2 |};
    {| value := lit "group:default/team-a"; count := 5 |};
    {| value := lit "user:default/alice"; count := 1 |} ].

Definition page : QueryResponse :=
  {| q_items := [stub "user" "default" "carol";
                 stub "user" "default" "dave"];
     pageInfo := {| nextCursor := Some (lit "page-3") |} |}.

Definition response : FacetsResponse :=
  {| facets := [(lit "relations.ownedBy", owners)] |}.

(** A catalog with three owners and one page of two entities. *)
Definition api : CatalogApi :=
  {| getEntityFacets := fun _ => Ok response;
     queryEntities := fun _ => Ok page |}.

(** The stubs of the three owners, as the catalog lists them and as
    the comparator sorts them. *)
Definition ownerStubs : list Entity :=
  [stub "user" "default" "bob"; stub "group" "default" "team-a";
   stub "user" "default" "alice"].

Definition sortedOwners : list Entity :=
  [stub "group" "default" "team-a"; stub "user" "default" "alice";
   stub "user" "default" "bob"].

(** The first two owners, and the cursor for [{ text: '', start: 2 }]. *)
Definition firstPage : CombinedResponse :=
  {| items := [stub "group" "default" "team-a";
               stub "user" "default" "alice"];
     cursor := Some (lit "eyJ0ZXh0IjoiIiwic3RhcnQiOjJ9") |}.

(** A catalog whose facet operation fails. *)
Definition brokenApi : CatalogApi :=
  {| getEntityFacets := fun _ => Throw (Rejected (lit "503"));
     queryEntities := fun _ => Throw (Rejected (lit "503")) |}.

(** Three entities of one kind; the middle one has no namespace. *)
Definition e1 : Entity := stub "user" "b" "x".
Definition e2 : Entity := bare "user" "y".
Definition e3 : Entity := stub "user" "a" "z".

(** Three entities that all have a namespace. *)
Definition alice : Entity := stub "user" "default" "alice".
Definition bob : Entity := stub "user" "default" "bob".
Definition opsAlice : Entity := stub "user" "ops" "alice".

Definition twoPerPage : option FetchOptions :=
  Some {| limit := Some 2%Z |}.

End Sample.

(* ------------------------------------------------------------------ *)
(** ** The rest of the two hooks *)

(** The effect of [useFacetsEntities] (lines 129-133): when the hook is
    enabled and has a kind, it calls the callback with this request and
    without options; otherwise it does nothing. *)
Definition refetchRequest (enabled : bool) (selectedKind : option jsstring)
  : option CombinedRequest :=
  if enabled && truthyOpt selectedKind then Some (InitialRequest (lit ""))
  else None.

(** The stub that lines 85-89 build from a parsed reference. *)
Definition stubOf (r : CompoundEntityRef) : Entity :=
  {| apiVersion := lit "backstage.io/v1beta1";
     kind := ref_kind r;
     metadata := {| name := ref_name r;
                    namespace := Some (ref_namespace r) |} |}.

(** The kinds for which line 69 adds the server-side filter. *)
Definition isOwnerKind (k : jsstring) : Prop :=
  toLocaleLowerCase k = lit "group" \/ toLocaleLowerCase k = lit "user".

(** [xs] is the beginning of [ys]. *)
Definition isPrefixOf {A} (xs ys : list A) : Prop :=
  exists rest, ys = xs ++ rest.

(** A text that [trim] empties. *)
Definition isBlank (text : jsstring) : Prop :=
  Forall (fun c => isWhiteSpace c = true) text.

(** The comparator never puts the second entity before the first. *)
Definition notAfter (a b : Entity) : Prop := (compareEntities a b <= 0)%Z.

(** A parser that never returns an empty namespace. *)
Definition namespacesNonEmpty
    (parse : jsstring -> result CompoundEntityRef) : Prop :=
  forall ref r, parse ref = Ok r -> truthy (ref_namespace r) = true.

(** The order of the facet sort as the specification words it:
    ascending by kind; on equal kinds by namespace, which is compared
    only when both sides have one; on equal namespaces, or when they
    are not compared, by name.  Strings compare code unit by code unit,
    so the order is case-sensitive. *)
Definition strBefore (x y : jsstring) : Prop := ltb x y = true.

Definition comparedNamespaces (a b : Entity) : option (jsstring * jsstring) :=
  match namespace (metadata a), namespace (metadata b) with
  | Some x, Some y => if truthy x && truthy y then Some (x, y) else None
  | _, _ => None
  end.

Definition ruleLess (a b : Entity) : Prop :=
  strBefore (kind a) (kind b)
  \/ (kind a = kind b
      /\ match comparedNamespaces a b with
         | Some (x, y) =>
             strBefore x y
             \/ (x = y /\ strBefore (name (metadata a)) (name (metadata b)))
         | None => strBefore (name (metadata a)) (name (metadata b))
         end).

Definition ruleEqual (a b : Entity) : Prop :=
  kind a = kind b
  /\ match comparedNamespaces a b with
     | Some (x, y) => x = y
     | None => True
     end
  /\ name (metadata a) = name (metadata b).

Module MoreSamples.

(** A catalog whose answer has no facet at all. *)
Definition facetlessApi : CatalogApi :=
  {| getEntityFacets := fun _ => Ok {| facets := [] |};
     queryEntities := fun _ => Ok Sample.page |}.

End MoreSamples.

(* ================================================================== *)
(** * Properties *)

(** Decide the comparisons of code units in the goal, one after the
    other, and close what arithmetic closes. *)
Ltac bool_arith :=
  repeat match goal with
         | |- context [(?a <? ?b)%N] => destruct (N.ltb_spec a b)
         | |- context [(?a <=? ?b)%N] => destruct (N.leb_spec a b)
         | |- context [(?a =? ?b)%N] => destruct (N.eqb_spec a b)
         end;
  cbn [andb orb negb]; try reflexivity; try discriminate; try lia.

(** Arithmetic with quotients and remainders by constants. *)
Ltac div_lia :=
  zify; Z.to_euclidean_division_equations; lia.

(* ------------------------------------------------------------------ *)
(** ** The order on strings *)

Lemma ltb_irrefl (a : jsstring) : ltb a a = false.
Proof.
  induction a as [|x a IH]; simpl; [reflexivity|].
  rewrite N.ltb_irrefl, N.eqb_refl. exact IH.
Qed.

Lemma ltb_trans (a b c : jsstring) :
  ltb a b = true -> ltb b c = true -> ltb a c = true.
Proof.
  revert b c. induction a as [|x a IH]; intros [|y b] [|z c]; simpl;
    try discriminate; try reflexivity.
  destruct (N.ltb_spec x y), (N.ltb_spec y z), (N.ltb_spec x z);
    try reflexivity; try lia;
    destruct (N.eqb_spec x y), (N.eqb_spec y z), (N.eqb_spec x z);
    try discriminate; try lia.
  apply IH.
Qed.

(** Two strings neither of which is smaller are the same string. *)
Lemma ltb_antisym (a b : jsstring) :
  ltb a b = false -> ltb b a = false -> a = b.
Proof.
  revert b. induction a as [|x a IH]; intros [|y b]; simpl;
    try discriminate; try reflexivity.
  destruct (N.ltb_spec x y), (N.ltb_spec y x); try discriminate; try lia.
  assert (x = y) by lia. subst y. rewrite N.eqb_refl.
  intros H1 H2. f_equal. now apply IH.
Qed.

Lemma ltb_asym (a b : jsstring) : ltb a b = true -> ltb b a = false.
Proof.
  intros H. destruct (ltb b a) eqn:E; [|reflexivity].
  pose proof (ltb_trans _ _ _ H E) as T. now rewrite ltb_irrefl in T.
Qed.

Lemma ltb_cases (a b : jsstring) : strOrder a b.
Proof.
  destruct (ltb a b) eqn:E1.
  - apply strLess; [exact E1 | now apply ltb_asym].
  - destruct (ltb b a) eqn:E2.
    + now apply strMore.
    + apply strSame. now apply ltb_antisym.
Qed.

(* ------------------------------------------------------------------ *)
(** ** The comparator *)

(** Split on how two strings compare and rewrite with what is learnt. *)
Ltac order_cases a b :=
  let E := fresh "Heq" in
  destruct (ltb_cases a b) as [?Hlt ?Hgt | E | ?Hlt ?Hgt];
  [ | try rewrite <- E in *; try rewrite ltb_irrefl in * | ].

(** A comparison that follows from two others by transitivity. *)
Ltac order_chain :=
  repeat match goal with
         | H1 : ltb ?a ?b = true, H2 : ltb ?b ?c = true |- _ =>
             lazymatch goal with
             | _ : ltb a c = true |- _ => fail
             | _ => pose proof (ltb_trans _ _ _ H1 H2)
             end
         end;
  repeat match goal with
         | H : ltb ?a ?b = true |- _ =>
             lazymatch goal with
             | _ : ltb b a = false |- _ => fail
             | _ => pose proof (ltb_asym _ _ H)
             end
         end.

Lemma compareEntities_range (a b : Entity) :
  compareEntities a b = (-1)%Z \/ compareEntities a b = 0%Z
  \/ compareEntities a b = 1%Z.
Proof.
  unfold compareEntities, gtb.
  destruct (ltb (kind a) (kind b)); [auto|].
  destruct (ltb (kind b) (kind a)); [auto|].
  destruct (namespace (metadata a)) as [na|],
           (namespace (metadata b)) as [nb|];
    try destruct (truthy na && truthy nb);
    try destruct (ltb na nb); try destruct (ltb nb na);
    destruct (ltb (name (metadata a)) (name (metadata b)));
    destruct (ltb (name (metadata b)) (name (metadata a))); auto.
Qed.

(** Rewrite the goal with every comparison that is known. *)
Ltac order_rewrite :=
  repeat match goal with
         | H : ltb _ _ = _ |- _ => rewrite H
         end;
  rewrite ?ltb_irrefl.

(** Swapping the arguments negates the outcome. *)
Lemma compareEntities_swap (a b : Entity) :
  compareEntities b a = (- compareEntities a b)%Z.
Proof.
  unfold compareEntities, gtb.
  order_cases (kind a) (kind b); order_rewrite; try reflexivity.
  destruct (namespace (metadata a)) as [na|],
           (namespace (metadata b)) as [nb|];
    try (rewrite (andb_comm (truthy nb) (truthy na));
         destruct (truthy na && truthy nb));
    try (order_cases na nb; order_rewrite; try reflexivity);
    order_cases (name (metadata a)) (name (metadata b));
    order_rewrite; reflexivity.
Qed.

(** Compare [x] with [y] and [y] with [z], and conclude on [x] and [z]. *)
Ltac order_triple x y z :=
  destruct (ltb_cases x y) as [? ? | ? | ? ?];
  destruct (ltb_cases y z) as [? ? | ? | ? ?];
  subst; order_chain; order_rewrite;
  try discriminate; try reflexivity.

(** Among entities that agree on having a namespace, "not greater" is
    transitive. *)
Lemma compareEntities_le_trans (a b c : Entity) :
  hasNamespace a = hasNamespace b ->
  hasNamespace b = hasNamespace c ->
  (compareEntities a b <= 0)%Z -> (compareEntities b c <= 0)%Z ->
  (compareEntities a c <= 0)%Z.
Proof.
  unfold hasNamespace, truthyOpt, compareEntities, gtb.
  destruct a as [va ka [na nsa]], b as [vb kb [nb nsb]],
           c as [vc kc [nc nsc]]; simpl.
  intros U1 U2.
  order_triple ka kb kc; try lia;
    destruct nsa as [sa|], nsb as [sb|], nsc as [sc|]; simpl in *;
    try (destruct (truthy sa)); try (destruct (truthy sb));
    try (destruct (truthy sc)); simpl in *; try discriminate;
    try (order_triple sa sb sc; try lia);
    order_triple na nb nc; lia.
Qed.

(** And so is "less". *)
Lemma compareEntities_lt_trans (a b c : Entity) :
  hasNamespace a = hasNamespace b ->
  hasNamespace b = hasNamespace c ->
  entity_lt a b -> entity_lt b c -> entity_lt a c.
Proof.
  unfold entity_lt, hasNamespace, truthyOpt, compareEntities, gtb.
  destruct a as [va ka [na nsa]], b as [vb kb [nb nsb]],
           c as [vc kc [nc nsc]]; simpl.
  intros U1 U2.
  order_triple ka kb kc;
    destruct nsa as [sa|], nsb as [sb|], nsc as [sc|]; simpl in *;
    try (destruct (truthy sa)); try (destruct (truthy sb));
    try (destruct (truthy sc)); simpl in *; try discriminate;
    try (order_triple sa sb sc);
    order_triple na nb nc.
Qed.

(** On entities in general the comparator is not transitive: with the
    namespace of the middle entity missing, [e1 < e2] and [e2 < e3] are
    decided by the names, [e1 > e3] by the namespaces.  The sort never
    meets such an entity: every stub it is given has a namespace. *)
Lemma compareEntities_not_transitive :
  entity_lt Sample.e1 Sample.e2 /\ entity_lt Sample.e2 Sample.e3
  /\ entity_gt Sample.e1 Sample.e3 /\ ~ entity_lt Sample.e1 Sample.e3.
Proof.
  repeat split; try reflexivity.
  unfold entity_lt. vm_compute. discriminate.
Qed.

(** The three outcomes of the comparator exclude each other,
    greater-than is less-than with the sides swapped, and less-than is
    transitive among entities that agree on having a namespace. *)
Theorem compareEntities_total_on_uniform (a b c : Entity) :
  exactlyOne (entity_lt a b) (entity_eq a b) (entity_gt a b)
  /\ (entity_gt a b <-> entity_lt b a)
  /\ (hasNamespace a = hasNamespace b ->
      hasNamespace b = hasNamespace c ->
      entity_lt a b -> entity_lt b c -> entity_lt a c).
Proof.
  split; [|split].
  - unfold exactlyOne, entity_lt, entity_eq, entity_gt.
    destruct (compareEntities_range a b) as [H | [H | H]]; rewrite H.
    + left. repeat split; discriminate.
    + right; left. repeat split; discriminate.
    + right; right. repeat split; discriminate.
  - unfold entity_gt, entity_lt. rewrite (compareEntities_swap a b). lia.
  - apply compareEntities_lt_trans.
Qed.

Lemma compareEntities_total_on_uniform_witness :
  entity_lt Sample.alice Sample.bob /\ entity_lt Sample.bob Sample.opsAlice
  /\ entity_lt Sample.alice Sample.opsAlice.
Proof.
  assert (H12 : entity_lt Sample.alice Sample.bob) by reflexivity.
  assert (H23 : entity_lt Sample.bob Sample.opsAlice) by reflexivity.
  split; [exact H12 | split; [exact H23 |]].
  exact (proj2 (proj2 (compareEntities_total_on_uniform
                         Sample.alice Sample.bob Sample.opsAlice))
               eq_refl eq_refl H12 H23).
Defined.

(* ------------------------------------------------------------------ *)
(** ** The local text filter *)

Lemma startsWith_iff (s t : jsstring) :
  startsWith s t = true <-> exists post, s = t ++ post.
Proof.
  revert s. induction t as [|y t IH]; intros s; simpl.
  - split; [intros _; now exists s | reflexivity].
  - destruct s as [|x s].
    + split; [discriminate | intros [post H]; discriminate].
    + rewrite andb_true_iff, N.eqb_eq, IH. split.
      * intros [-> [post ->]]. now exists post.
      * intros [post H]. injection H as -> ->. split; [reflexivity|].
        now exists post.
Qed.

Lemma includes_iff (s t : jsstring) :
  includes s t = true <-> isSubstring t s.
Proof.
  unfold isSubstring. induction s as [|x s IH].
  - simpl. rewrite orb_false_r, startsWith_iff. split.
    + intros [post H]. now exists [], post.
    + intros [pre [post H]]. exists post.
      destruct pre; [exact H | discriminate].
  - cbn [includes]. rewrite orb_true_iff, startsWith_iff, IH. split.
    + intros [[post H] | [pre [post H]]].
      * now exists [], post.
      * exists (x :: pre), post. simpl. now rewrite H.
    + intros [[|p pre] [post H]].
      * left. now exists post.
      * right. injection H as -> H. now exists pre, post.
Qed.

Lemma includes_empty (s : jsstring) : includes s [] = true.
Proof. destruct s; reflexivity. Qed.

(** C8.  The local text filter keeps an entity exactly when the trimmed
    text is a substring, code unit for code unit, of the kind, of the
    namespace when there is one, or of the name; the empty text keeps
    every entity. *)
Theorem filterEntity_keeps_iff (text : jsstring) (e : Entity) :
  (filterEntity text e = true <-> keptBySpec text e)
  /\ filterEntity [] e = true.
Proof.
  split.
  - unfold filterEntity, keptBySpec.
    rewrite !orb_true_iff, !includes_iff.
    destruct (namespace (metadata e)) as [ns|].
    + rewrite includes_iff. split.
      * intros [[H | H] | H]; auto. right; left. now exists ns.
      * intros [H | [[ns' [E H]] | H]]; auto.
        injection E as <-. auto.
    + split.
      * intros [[H | H] | H]; auto. discriminate.
      * intros [H | [[ns' [E H]] | H]]; auto. discriminate.
  - unfold filterEntity. change (trim []) with (@nil codeunit).
    now rewrite includes_empty.
Qed.

(* ------------------------------------------------------------------ *)
(** ** Failures inside the facet fetch *)

Lemma mapM_throws {A B} (f : A -> result B) (xs : list A) :
  (exists x e, In x xs /\ f x = Throw e) -> exists e, mapM f xs = Throw e.
Proof.
  induction xs as [|x xs IH]; intros [y [e [Hin Hy]]]; [destruct Hin|].
  simpl. destruct (f x) as [b|e0] eqn:Fx; simpl; [|now exists e0].
  destruct Hin as [-> | Hin]; [congruence|].
  destruct IH as [e1 H1]; [now exists y, e|].
  rewrite H1. now exists e1.
Qed.

Lemma mapM_throws_inv {A B} (f : A -> result B) (xs : list A) (e : exn) :
  mapM f xs = Throw e -> exists x, In x xs /\ f x = Throw e.
Proof.
  induction xs as [|x xs IH]; simpl; [discriminate|].
  destruct (f x) as [b|e0] eqn:Fx; simpl.
  - destruct (mapM f xs) as [ys|e1]; simpl; [discriminate|].
    intros [= ->]. destruct IH as [y [Hin Hy]]; [reflexivity|].
    exists y. auto.
  - intros [= ->]. exists x. auto.
Qed.

Section FacetFetch.

Variable api : CatalogApi.
Variable parse : jsstring -> result CompoundEntityRef.

(** The callback returns what the [try] block returns, or the empty
    response. *)
Lemma fetch_cases enabled selectedKind request options :
  useFacetsEntities api parse enabled selectedKind request options
    = fetchBody api parse selectedKind request options
  \/ useFacetsEntities api parse enabled selectedKind request options
     = Ok emptyResponse.
Proof.
  unfold useFacetsEntities.
  destruct (negb enabled || negb (truthyOpt selectedKind)); [now right|].
  destruct (fetchBody _ _ _ _ _); [now left | now right].
Qed.

Lemma fetch_of_throw enabled selectedKind request options e :
  fetchBody api parse selectedKind request options = Throw e ->
  useFacetsEntities api parse enabled selectedKind request options
    = Ok emptyResponse.
Proof.
  unfold useFacetsEntities. intros ->.
  now destruct (negb enabled || negb (truthyOpt selectedKind)).
Qed.

Lemma fetch_of_ok selectedKind request options ret :
  truthyOpt selectedKind = true ->
  fetchBody api parse selectedKind request options = Ok ret ->
  useFacetsEntities api parse true selectedKind request options = Ok ret.
Proof.
  unfold useFacetsEntities. now intros -> ->.
Qed.

(** A failing step makes the [try] block throw. *)
Lemma body_throws selectedKind request options :
  stepThrows api parse selectedKind request ->
  exists e, fetchBody api parse selectedKind request options = Throw e.
Proof.
  unfold fetchBody, fetchWindow.
  intros [[e H] | [[response [ref [e [H [Hin Hp]]]]] | [e H]]].
  - rewrite H. now exists e.
  - rewrite H. simpl.
    destruct (mapM_throws (entityOfRef parse) (rawList response))
      as [e' He'].
    + exists ref, e. split; [exact Hin|].
      unfold entityOfRef. now rewrite Hp.
    + rewrite He'. now exists e'.
  - destruct (getEntityFacets _ _) as [response|e0]; simpl;
      [|now exists e0].
    destruct (mapM _ _) as [fs|e1]; simpl; [|now exists e1].
    rewrite H. now exists e.
Qed.

(** C5.  The facet fetch never rejects, and when a step of it throws
    (the network call, the parsing of a facet value, the decoding of
    the cursor, or anything else inside the [try] block) it resolves to
    the response without items and without cursor. *)
Theorem facet_fetch_swallows_failures
    (enabled : bool) (selectedKind : option jsstring)
    (request : CombinedRequest) (options : option FetchOptions) :
  (exists ret,
     useFacetsEntities api parse enabled selectedKind request options = Ok ret)
  /\ (stepThrows api parse selectedKind request ->
      useFacetsEntities api parse enabled selectedKind request options
        = Ok emptyResponse)
  /\ (forall e,
        fetchBody api parse selectedKind request options = Throw e ->
        useFacetsEntities api parse enabled selectedKind request options
          = Ok emptyResponse).
Proof.
  split; [|split].
  - destruct (fetchBody api parse selectedKind request options)
      as [ret|e] eqn:B.
    + destruct (fetch_cases enabled selectedKind request options) as [H|H].
      * exists ret. now rewrite H.
      * now exists emptyResponse.
    + exists emptyResponse. now apply fetch_of_throw with e.
  - intros H. destruct (body_throws options H) as [e He].
    now apply fetch_of_throw with e.
  - intros e. apply fetch_of_throw.
Qed.

End FacetFetch.

(** A catalog that fails: the fetch resolves to the empty response. *)
Lemma facet_fetch_swallows_failures_witness :
  useFacetsEntities Sample.brokenApi Sample.parseFullRef true
    (Some (lit "user")) (InitialRequest (lit "")) None = Ok emptyResponse.
Proof.
  apply (proj1 (proj2 (facet_fetch_swallows_failures
                         Sample.brokenApi Sample.parseFullRef true
                         (Some (lit "user")) (InitialRequest (lit "")) None))).
  left. exists (Rejected (lit "503")). reflexivity.
Defined.

(* ------------------------------------------------------------------ *)
(** ** A cursor that does not decode *)

(** C2, as stated, fails: the cursor [%%%] is not base64, yet the fetch
    with it resolves, to the empty response; nothing is rejected. *)
Lemma undecodable_cursor_does_not_reject :
  notBase64Json (lit "%%%")
  /\ decodeCursor (ContinuationRequest (lit "%%%") [])
     = Throw InvalidCharacterError
  /\ useFacetsEntities Sample.api Sample.parseFullRef true
       (Some (lit "user")) (ContinuationRequest (lit "%%%") []) None
     = Ok emptyResponse
  /\ forall e,
       useFacetsEntities Sample.api Sample.parseFullRef true
         (Some (lit "user")) (ContinuationRequest (lit "%%%") []) None
       <> Throw e.
Proof.
  split; [|split; [|split]].
  - left. now exists InvalidCharacterError.
  - reflexivity.
  - reflexivity.
  - intros e. vm_compute. discriminate.
Qed.

Lemma decodeCursor_propagates (cursor : jsstring) (items : list Entity) :
  notBase64Json cursor ->
  exists e, decodeCursor (ContinuationRequest cursor items) = Throw e.
Proof.
  unfold decodeCursor. intros [[e H] | [s [e [H1 H2]]]].
  - rewrite H. now exists e.
  - rewrite H1. simpl. rewrite H2. now exists e.
Qed.

(** C2 (amended).  For a continuation request whose cursor string is not
    base64-encoded JSON, [decodeCursor] does not handle the failure, it
    throws; the facet fetch catches that and resolves to the response
    without items. *)
Theorem undecodable_cursor_is_swallowed
    (api : CatalogApi) (parse : jsstring -> result CompoundEntityRef)
    (enabled : bool) (selectedKind : option jsstring)
    (cursor : jsstring) (items : list Entity)
    (options : option FetchOptions) :
  notBase64Json cursor ->
  (exists e, decodeCursor (ContinuationRequest cursor items) = Throw e)
  /\ useFacetsEntities api parse enabled selectedKind
       (ContinuationRequest cursor items) options = Ok emptyResponse.
Proof.
  intros H. pose proof (decodeCursor_propagates items H) as D.
  split; [exact D|].
  destruct (@body_throws api parse selectedKind
              (ContinuationRequest cursor items) options) as [e He].
  - right; right. exact D.
  - now apply fetch_of_throw with e.
Qed.

(** The cursor [ew==] is base64 for an opening brace, which is not
    JSON. *)
Lemma undecodable_cursor_is_swallowed_witness :
  notBase64Json (lit "ew==")
  /\ useFacetsEntities Sample.api Sample.parseFullRef true
       (Some (lit "user"))
       (ContinuationRequest (lit "ew==") [Sample.alice]) Sample.twoPerPage
     = Ok emptyResponse.
Proof.
  assert (H : notBase64Json (lit "ew==")).
  { right. exists (lit "{"), SyntaxError. split; reflexivity. }
  split; [exact H|].
  exact (proj2 (undecodable_cursor_is_swallowed
                  Sample.api Sample.parseFullRef true (Some (lit "user"))
                  [Sample.alice] Sample.twoPerPage H)).
Defined.

(* ------------------------------------------------------------------ *)
(** ** The case of the selected kind *)

(** The selected kind reaches the callback only through the request it
    sends: two truthy kinds that get the same answer from the catalog
    give the same result. *)
Lemma fetch_depends_on_answer
    (api : CatalogApi) (parse : jsstring -> result CompoundEntityRef)
    (enabled : bool) (k1 k2 : jsstring)
    (request : CombinedRequest) (options : option FetchOptions) :
  truthy k1 = true -> truthy k2 = true ->
  getEntityFacets api (facetsRequest (Some k1))
    = getEntityFacets api (facetsRequest (Some k2)) ->
  useFacetsEntities api parse enabled (Some k1) request options
    = useFacetsEntities api parse enabled (Some k2) request options.
Proof.
  intros T1 T2 H.
  unfold useFacetsEntities, fetchBody, fetchWindow. simpl.
  now rewrite T1, T2, H.
Qed.

(** A kind that is [user] or [group] up to case is sent as it was
    given. *)
Lemma filterObj_of_owner_kind (k : jsstring) :
  toLocaleLowerCase k = lit "user" \/ toLocaleLowerCase k = lit "group" ->
  filterObj (Some k) = Some [ {| key := lit "kind"; values := [k] |} ].
Proof.
  intros H. unfold filterObj.
  assert (T : truthy k = true) by (destruct k; destruct H; easy).
  rewrite T. destruct H as [-> | ->]; reflexivity.
Qed.

(** C3, as stated, fails: the requests built for [USER] and for [user]
    differ, each carries the kind in the case it was given. *)
Lemma selectedKind_case_reaches_server :
  facetsRequest (Some (lit "USER")) <> facetsRequest (Some (lit "user"))
  /\ req_filter (facetsRequest (Some (lit "USER")))
     = Some [ {| key := lit "kind"; values := [lit "USER"] |} ]
  /\ req_filter (facetsRequest (Some (lit "user")))
     = Some [ {| key := lit "kind"; values := [lit "user"] |} ].
Proof.
  split; [|split]; try reflexivity.
  vm_compute. discriminate.
Qed.

(** C3 (amended).  [USER] and [user] both select the server-side filter
    on [kind], each with the kind as it was given as the one value of
    the filter; when the catalog answers both requests alike, the two
    runs produce the same result. *)
Theorem selectedKind_case_insensitive_gate
    (api : CatalogApi) (parse : jsstring -> result CompoundEntityRef)
    (enabled : bool) (request : CombinedRequest)
    (options : option FetchOptions) :
  (forall k, toLocaleLowerCase k = lit "user" ->
     facetsRequest (Some k)
     = {| req_facets := [facet];
          req_filter := Some [ {| key := lit "kind"; values := [k] |} ] |})
  /\ toLocaleLowerCase (lit "USER") = toLocaleLowerCase (lit "user")
  /\ (getEntityFacets api (facetsRequest (Some (lit "USER")))
        = getEntityFacets api (facetsRequest (Some (lit "user"))) ->
      useFacetsEntities api parse enabled (Some (lit "USER")) request options
        = useFacetsEntities api parse enabled (Some (lit "user"))
            request options).
Proof.
  split; [|split].
  - intros k H. unfold facetsRequest.
    rewrite filterObj_of_owner_kind; [reflexivity | now left].
  - reflexivity.
  - now apply fetch_depends_on_answer.
Qed.

Lemma selectedKind_case_insensitive_gate_witness :
  useFacetsEntities Sample.api Sample.parseFullRef true (Some (lit "USER"))
    (InitialRequest (lit "al")) Sample.twoPerPage
  = useFacetsEntities Sample.api Sample.parseFullRef true (Some (lit "user"))
      (InitialRequest (lit "al")) Sample.twoPerPage.
Proof.
  apply (proj2 (proj2 (selectedKind_case_insensitive_gate
                         Sample.api Sample.parseFullRef true
                         (InitialRequest (lit "al")) Sample.twoPerPage))).
  reflexivity.
Defined.

(* ------------------------------------------------------------------ *)
(** ** The continuation branch of the query fetch *)

(** C9.  For a continuation request, when the catalog answers the query
    for the request's cursor and the limit, the result's items are the
    request's accumulated items followed by the new page, and its
    cursor is the next cursor of the answer; a failure of the catalog
    is the failure of the fetch. *)
Theorem useQueryEntities_continuation
    (api : CatalogApi) (cursor : jsstring) (items : list Entity)
    (options : option FetchOptions) :
  let query :=
    {| q_cursor := Some cursor; q_fullTextFilter := None;
       q_filter := None; q_orderFields := None;
       q_limit := limitOf options |} in
  (forall response,
     queryEntities api query = Ok response ->
     useQueryEntities api (ContinuationRequest cursor items) options
     = Ok {| items := items ++ q_items response;
             cursor := nextCursor (pageInfo response) |})
  /\ (forall e,
        queryEntities api query = Throw e ->
        useQueryEntities api (ContinuationRequest cursor items) options
        = Throw e).
Proof.
  intros query. unfold useQueryEntities. fold query.
  split; intros x H; rewrite H; reflexivity.
Qed.

Lemma useQueryEntities_continuation_witness :
  useQueryEntities Sample.api
    (ContinuationRequest (lit "page-2") [Sample.alice; Sample.bob]) None
  = Ok {| items := [Sample.alice; Sample.bob;
                    Sample.stub "user" "default" "carol";
                    Sample.stub "user" "default" "dave"];
          cursor := Some (lit "page-3") |}.
Proof.
  exact (proj1 (useQueryEntities_continuation Sample.api (lit "page-2")
                  [Sample.alice; Sample.bob] None)
               Sample.page eq_refl).
Defined.

(* ------------------------------------------------------------------ *)
(** ** [atob] undoes [btoa] *)

Module Base64Facts.
Import Base64.

(** Induction on a list of bytes, three at a time. *)
Lemma list_ind3 {A} (P : list A -> Prop) :
  P [] -> (forall a, P [a]) -> (forall a b, P [a; b]) ->
  (forall a b c rest, P rest -> P (a :: b :: c :: rest)) ->
  forall l, P l.
Proof.
  intros H0 H1 H2 H3 l.
  enough (P l /\ (forall a, P (a :: l)) /\ (forall a b, P (a :: b :: l)))
    by tauto.
  induction l as [|x l [IH0 [IH1 IH2]]].
  - repeat split; auto.
  - repeat split; auto.
Qed.

(** The five ranges of the alphabet. *)
Ltac alphabet_cases s :=
  unfold alphabet;
  destruct (N.ltb_spec s 26);
    [|destruct (N.ltb_spec s 52);
      [|destruct (N.ltb_spec s 62); [|destruct (N.eqb_spec s 62)]]].

Lemma sextet_alphabet (s : N) : (s < 64)%N -> sextet (alphabet s) = Some s.
Proof.
  intros H. alphabet_cases s; unfold sextet; bool_arith; f_equal; lia.
Qed.

Lemma alphabet_not_pad (s : N) : alphabet s <> pad.
Proof. unfold pad. alphabet_cases s; lia. Qed.

Lemma alphabet_not_whitespace (s : N) :
  isAsciiWhitespace (alphabet s) = false.
Proof. alphabet_cases s; unfold isAsciiWhitespace; bool_arith. Qed.

Lemma padding_step (a b c : N) (rest : list N) :
  padding (a :: b :: c :: rest) = padding rest.
Proof.
  unfold padding. replace (length (a :: b :: c :: rest))
    with (length rest + 1 * 3)%nat by (simpl; lia).
  now rewrite Nat.Div0.mod_add.
Qed.

Lemma encode_unpadded (bs : list N) :
  encode bs = map alphabet (sextetsOf bs) ++ padding bs.
Proof.
  induction bs as [| a | a b | a b c rest IH] using list_ind3;
    try reflexivity.
  rewrite padding_step. cbn [encode sextetsOf map app]. now rewrite IH.
Qed.

Ltac bytes_of H :=
  unfold isByteString in H;
  repeat match goal with
         | H : Forall _ (_ :: _) |- _ => inversion_clear H
         end.

Lemma sextetsOf_bound (bs : list N) :
  isByteString bs -> Forall (fun s => (s < 64)%N) (sextetsOf bs).
Proof.
  induction bs as [| a | a b | a b c rest IH] using list_ind3; intros H;
    bytes_of H; cbn [sextetsOf]; repeat constructor;
    try div_lia.
  now apply IH.
Qed.

Lemma sextets_alphabet (ss : list N) :
  Forall (fun s => (s < 64)%N) ss -> sextets (map alphabet ss) = Some ss.
Proof.
  induction 1 as [|s ss Hs _ IH]; [reflexivity|].
  simpl. now rewrite sextet_alphabet, IH.
Qed.

Lemma decode_sextetsOf (bs : list N) :
  isByteString bs -> decode (sextetsOf bs) = bs.
Proof.
  induction bs as [| a | a b | a b c rest IH] using list_ind3; intros H;
    bytes_of H; cbn [sextetsOf decode]; repeat f_equal;
    try div_lia.
  now apply IH.
Qed.

Lemma filter_id {A} (f : A -> bool) (l : list A) :
  Forall (fun x => f x = true) l -> filter f l = l.
Proof.
  induction 1 as [|x l Hx _ IH]; [reflexivity|].
  simpl. now rewrite Hx, IH.
Qed.

Lemma padding_cases (bs : list N) :
  padding bs = [] \/ padding bs = [pad] \/ padding bs = [pad; pad].
Proof.
  unfold padding. destruct (length bs mod 3)%nat as [|[|[|n]]]; auto.
Qed.

Lemma encode_no_whitespace (bs : list N) :
  filter (fun c => negb (isAsciiWhitespace c)) (encode bs) = encode bs.
Proof.
  apply filter_id. rewrite encode_unpadded. apply Forall_app. split.
  - apply Forall_forall. intros c Hc. apply in_map_iff in Hc.
    destruct Hc as [s0 [<- _]]. now rewrite alphabet_not_whitespace.
  - destruct (padding_cases bs) as [-> | [-> | ->]];
      repeat constructor.
Qed.

Lemma length_encode_mod4 (bs : list N) : (length (encode bs) mod 4 = 0)%nat.
Proof.
  induction bs as [| a | a b | a b c rest IH] using list_ind3;
    try reflexivity.
  cbn [encode]. replace (length (_ :: _ :: _ :: _ :: encode rest))
    with (length (encode rest) + 1 * 4)%nat by (simpl; lia).
  now rewrite Nat.Div0.mod_add.
Qed.

Lemma length_sextetsOf_mod4 (bs : list N) :
  (length (sextetsOf bs) mod 4 <> 1)%nat.
Proof.
  induction bs as [| a | a b | a b c rest IH] using list_ind3;
    try (cbv; discriminate).
  cbn [sextetsOf]. replace (length (_ :: _ :: _ :: _ :: sextetsOf rest))
    with (length (sextetsOf rest) + 1 * 4)%nat by (simpl; lia).
  now rewrite Nat.Div0.mod_add.
Qed.

(** Stripping the padding of an encoding leaves its characters. *)
Lemma stripPadding_unpadded (u p : jsstring) :
  Forall (fun c => c <> pad) u ->
  p = [] \/ p = [pad] \/ p = [pad; pad] ->
  stripPadding (u ++ p) = u.
Proof.
  intros Hu Hp. unfold stripPadding.
  assert (Hhead : forall x r, rev u = x :: r -> (x =? pad)%N = false).
  { intros x r E. apply N.eqb_neq.
    assert (In x u) by (apply in_rev; rewrite E; now left).
    rewrite Forall_forall in Hu. now apply Hu. }
  destruct Hp as [-> | [-> | ->]]; rewrite rev_app_distr; simpl.
  - rewrite List.app_nil_r. destruct (rev u) as [|x r] eqn:E; [reflexivity|].
    now rewrite (Hhead x r).
  - destruct (rev u) as [|x r] eqn:E.
    + now rewrite <- (rev_involutive u), E.
    + rewrite (Hhead x r eq_refl). now rewrite <- E, rev_involutive.
  - now rewrite rev_involutive.
Qed.

(** [atob(btoa(s))] is [s]. *)
Lemma atob_encode (bs : list N) :
  isByteString bs -> atob (encode bs) = Ok bs.
Proof.
  intros H. unfold atob.
  rewrite encode_no_whitespace, length_encode_mod4. cbn [Nat.eqb].
  rewrite encode_unpadded, stripPadding_unpadded.
  - rewrite length_map.
    destruct (length (sextetsOf bs) mod 4 =? 1)%nat eqn:E.
    + apply Nat.eqb_eq in E. now apply length_sextetsOf_mod4 in E.
    + rewrite sextets_alphabet by now apply sextetsOf_bound.
      now rewrite decode_sextetsOf.
  - apply Forall_forall. intros c Hc. apply in_map_iff in Hc.
    destruct Hc as [s0 [<- _]]. apply alphabet_not_pad.
  - apply padding_cases.
Qed.

Lemma atob_btoa (s cursor : jsstring) :
  btoa s = Ok cursor -> atob cursor = Ok s.
Proof.
  unfold btoa.
  destruct (forallb (fun c => (c <=? 255)%N) s) eqn:E; [|discriminate].
  intros [= <-]. apply atob_encode.
  apply Forall_forall. intros c Hc.
  rewrite forallb_forall in E. apply N.leb_le. now apply E.
Qed.

Lemma btoa_bytes (s : jsstring) :
  isByteString s -> btoa s = Ok (encode s).
Proof.
  intros H. unfold btoa.
  replace (forallb (fun c => (c <=? 255)%N) s) with true; [reflexivity|].
  symmetry. apply forallb_forall. intros c Hc. apply N.leb_le.
  unfold isByteString in H. rewrite Forall_forall in H. now apply H.
Qed.

End Base64Facts.

(* ------------------------------------------------------------------ *)
(** ** [JSON.parse] undoes [JSON.stringify] *)

Module JsonFacts.
Import Json.

Lemma hexValue_hexDigit (d : N) : (d < 16)%N -> hexValue (hexDigit d) = Some d.
Proof.
  intros H. unfold hexDigit. destruct (N.ltb_spec d 10);
    unfold hexValue; bool_arith; f_equal; lia.
Qed.

Lemma parseChars_unicodeEscape (c : codeunit) (rest : jsstring) :
  (c < 65536)%N ->
  parseChars (unicodeEscape c ++ rest) = consChar c (parseChars rest).
Proof.
  intros H. unfold unicodeEscape. cbn [app parseChars N.eqb Pos.eqb].
  rewrite !hexValue_hexDigit by div_lia.
  f_equal. div_lia.
Qed.

Lemma surrogate_bound (c : codeunit) :
  isHighSurrogate c = true \/ isLowSurrogate c = true -> (c < 65536)%N.
Proof.
  unfold isHighSurrogate, isLowSurrogate.
  rewrite !andb_true_iff, !N.leb_le. lia.
Qed.

(** A surrogate is read back as itself. *)
Lemma parseChars_surrogate (c : codeunit) (rest : jsstring) :
  isHighSurrogate c = true \/ isLowSurrogate c = true ->
  parseChars (c :: rest) = consChar c (parseChars rest).
Proof.
  unfold isHighSurrogate, isLowSurrogate.
  rewrite !andb_true_iff, !N.leb_le. intros H.
  cbn [parseChars].
  destruct (N.eqb_spec c 34); [lia|].
  destruct (N.eqb_spec c 92); [lia|].
  destruct (N.ltb_spec c 32); [lia|]. reflexivity.
Qed.

(** What [quoteUnit] writes for a code unit is read back as that code
    unit. *)
Lemma parseChars_quoteUnit (c : codeunit) (rest : jsstring) :
  parseChars (quoteUnit c ++ rest) = consChar c (parseChars rest).
Proof.
  unfold quoteUnit.
  destruct (N.eqb_spec c 8); [subst; reflexivity|].
  destruct (N.eqb_spec c 9); [subst; reflexivity|].
  destruct (N.eqb_spec c 10); [subst; reflexivity|].
  destruct (N.eqb_spec c 12); [subst; reflexivity|].
  destruct (N.eqb_spec c 13); [subst; reflexivity|].
  destruct (N.eqb_spec c 34); [subst; reflexivity|].
  destruct (N.eqb_spec c 92); [subst; reflexivity|].
  destruct (N.ltb_spec c 32) as [Hc|Hc]; cbn [orb].
  - apply parseChars_unicodeEscape. lia.
  - destruct (isHighSurrogate c) eqn:Hh; cbn [orb].
    + apply parseChars_unicodeEscape, surrogate_bound. now left.
    + destruct (isLowSurrogate c) eqn:Hl.
      * apply parseChars_unicodeEscape, surrogate_bound. now right.
      * cbn [app parseChars].
        destruct (N.eqb_spec c 34); [contradiction|].
        destruct (N.eqb_spec c 92); [contradiction|].
        destruct (N.ltb_spec c 32); [lia|]. reflexivity.
Qed.

(** A quoted string is read back as the string. *)
Lemma parseChars_quoteChars (s rest : jsstring) :
  parseChars (quoteChars s ++ 34%N :: rest) = Some (s, rest).
Proof.
  remember (length s) as n eqn:Hn.
  revert s Hn. induction n as [n IH] using lt_wf_ind. intros s Hn.
  destruct s as [|c s]; [reflexivity|].
  cbn [quoteChars].
  assert (Hone : parseChars ((quoteUnit c ++ quoteChars s) ++ 34%N :: rest)
                 = Some (c :: s, rest)).
  { rewrite <- app_assoc, parseChars_quoteUnit.
    rewrite (IH (length s)); [reflexivity | simpl in Hn; lia | reflexivity]. }
  destruct (isHighSurrogate c) eqn:Hh; [|exact Hone].
  destruct s as [|d s']; [exact Hone|].
  destruct (isLowSurrogate d) eqn:Hl; [|exact Hone].
  cbn [app]. rewrite parseChars_surrogate by now left.
  rewrite parseChars_surrogate by now right.
  rewrite (IH (length s')); [reflexivity | simpl in Hn; lia | reflexivity].
Qed.

(** *** Numbers *)

Lemma uintUnits_digits (d : Decimal.uint) :
  Forall (fun c => isDigit c = true) (uintUnits d).
Proof. induction d; simpl; constructor; auto. Qed.

Lemma takeDigits_uintUnits (d : Decimal.uint) (rest : jsstring) :
  noDigitAhead rest -> takeDigits (uintUnits d ++ rest) = (d, rest).
Proof.
  intros H. induction d as [|d IH|d IH|d IH|d IH|d IH|d IH|d IH|d IH|d IH|d IH];
    cbn [uintUnits app].
  - destruct rest as [|c r]; [reflexivity|].
    cbn [takeDigits]. simpl in H. now rewrite H.
  - cbn [takeDigits]. now rewrite IH.
  - cbn [takeDigits]. now rewrite IH.
  - cbn [takeDigits]. now rewrite IH.
  - cbn [takeDigits]. now rewrite IH.
  - cbn [takeDigits]. now rewrite IH.
  - cbn [takeDigits]. now rewrite IH.
  - cbn [takeDigits]. now rewrite IH.
  - cbn [takeDigits]. now rewrite IH.
  - cbn [takeDigits]. now rewrite IH.
  - cbn [takeDigits]. now rewrite IH.
Qed.

(** The decimal digits of a positive number do not start with [0]. *)
Lemma to_uint_head (p : positive) :
  exists c r, uintUnits (Pos.to_uint p) = c :: r
              /\ isDigit c = true /\ c <> 48%N.
Proof.
  pose proof (DecimalPos.Unsigned.to_uint_nonzero p) as Hnz.
  assert (Hn : Decimal.unorm (Pos.to_uint p) = Pos.to_uint p).
  { rewrite <- DecimalN.Unsigned.to_of.
    change (Pos.to_uint p) with (N.to_uint (Npos p)).
    now rewrite DecimalN.Unsigned.of_to. }
  assert (Hh : Decimal.nzhead (Pos.to_uint p) = Pos.to_uint p).
  { rewrite <- Hn at 2. symmetry. apply DecimalFacts.unorm_nzhead.
    intros E. apply Hnz. rewrite <- Hn. now apply DecimalFacts.unorm_0. }
  pose proof (DecimalFacts.nzhead_nonzero (Pos.to_uint p)) as H0.
  rewrite Hh in H0.
  pose proof (DecimalPos.Unsigned.to_uint_nonnil p) as Hnil.
  remember (Pos.to_uint p) as u eqn:Hu. clear Hu Hn Hh Hnz.
  destruct u as [|d|d|d|d|d|d|d|d|d|d];
    first [ contradiction
          | exfalso; now apply (H0 d)
          | cbn [uintUnits]; eexists; eexists; (split; [reflexivity|]);
            split; [reflexivity | discriminate] ].
Qed.

Lemma parseFracExp_none (rest : jsstring) :
  endsNumber rest -> parseFracExp rest = Some (false, rest).
Proof.
  destruct rest as [|c r]; [reflexivity|].
  intros [_ [H1 [H2 H3]]]. unfold parseFracExp.
  apply N.eqb_neq in H1, H2, H3. now rewrite H1, H2, H3.
Qed.

Lemma endsNumber_noDigit (rest : jsstring) :
  endsNumber rest -> noDigitAhead rest.
Proof. destruct rest; [trivial | now intros [H _]]. Qed.

Lemma parseInt_pos (p : positive) (rest : jsstring) :
  noDigitAhead rest ->
  parseInt (uintUnits (Pos.to_uint p) ++ rest) = Some (Npos p, rest).
Proof.
  intros H. destruct (to_uint_head p) as [c [r [E [Hd Hc]]]].
  unfold parseInt.
  pose proof (takeDigits_uintUnits (Pos.to_uint p) rest H) as T.
  rewrite E in *. cbn [app] in *.
  apply N.eqb_neq in Hc. rewrite Hc, Hd, T.
  change (Pos.to_uint p) with (N.to_uint (Npos p)).
  now rewrite DecimalN.Unsigned.of_to.
Qed.

(** An integer in decimal is read back as the integer. *)
Lemma parseNumber_numberToString (z : Z) (rest : jsstring) :
  endsNumber rest ->
  parseNumber (numberToString z ++ rest) = Some (JNum z, rest).
Proof.
  intros H. pose proof (endsNumber_noDigit _ H) as Hd.
  destruct z as [|p|p]; unfold numberToString.
  - unfold parseNumber. cbn [app N.eqb Pos.eqb parseInt].
    now rewrite parseFracExp_none.
  - destruct (to_uint_head p) as [c [r [E [Hc Hn]]]].
    unfold parseNumber. change (N.to_uint (Npos p)) with (Pos.to_uint p).
    assert (Hm : (c =? 45)%N = false).
    { apply N.eqb_neq. intros ->. discriminate Hc. }
    pose proof (parseInt_pos p rest Hd) as P.
    rewrite E in *. cbn [app] in *. rewrite Hm, P.
    now rewrite parseFracExp_none.
  - unfold parseNumber. change (N.to_uint (Npos p)) with (Pos.to_uint p).
    cbn [app N.eqb Pos.eqb]. rewrite parseInt_pos by exact Hd.
    now rewrite parseFracExp_none.
Qed.

(** *** The cursor payload *)

Lemma stringify_units (p : FacetsCursor) :
  stringify p
  = lit "{" ++ quote (lit "text") ++ lit ":" ++ [34%N]
      ++ quoteChars (text p)
      ++ 34%N :: lit "," ++ quote (lit "start") ++ lit ":"
      ++ numberToString (start p) ++ lit "}".
Proof.
  unfold stringify, quote. now rewrite <- !app_assoc.
Qed.

(** One step of the value parser at a quote, and at a brace that a
    quote follows. *)
Lemma parseValue_at_quote (f : nat) (r : jsstring) :
  parseValue (S f) (34%N :: r)
  = match parseChars r with
    | Some (s, r1) => Some (JStr s, r1)
    | None => None
    end.
Proof. reflexivity. Qed.

Lemma parseValue_at_brace (f : nat) (r : jsstring) :
  parseValue (S f) (123%N :: 34%N :: r)
  = match parseMembers (parseValue f) f (34%N :: r) with
    | Some (ms, r2) => Some (JObj ms, r2)
    | None => None
    end.
Proof. reflexivity. Qed.

(** The decimal form of an integer starts with [-] or with a digit. *)
Lemma numberToString_head (z : Z) :
  exists c r, numberToString z = c :: r
              /\ (c = 45%N \/ isDigit c = true).
Proof.
  destruct z as [|p|p]; unfold numberToString.
  - exists 48%N, []. auto.
  - destruct (to_uint_head p) as [c [r [E [Hd _]]]].
    exists c, r. split; [exact E | now right].
  - eexists; eexists. split; [reflexivity | now left].
Qed.

Lemma parseValue_at_number (f : nat) (z : Z) (rest : jsstring) :
  endsNumber rest ->
  parseValue (S f) (numberToString z ++ rest) = Some (JNum z, rest).
Proof.
  intros H. rewrite <- (parseNumber_numberToString z rest H).
  destruct (numberToString_head z) as [c [r [E Hc]]]. rewrite E.
  cbn [app parseValue skipWs]. unfold isDigit in Hc.
  assert (Hr : (45 <= c <= 57)%N).
  { destruct Hc as [-> | Hc]; [lia|].
    apply andb_true_iff in Hc. rewrite !N.leb_le in Hc. lia. }
  unfold isJsonWhitespace.
  destruct (N.eqb_spec c 32); [lia|]. destruct (N.eqb_spec c 9); [lia|].
  destruct (N.eqb_spec c 10); [lia|]. destruct (N.eqb_spec c 13); [lia|].
  cbn [orb].
  destruct (N.eqb_spec c 34); [lia|]. destruct (N.eqb_spec c 123); [lia|].
  destruct (N.eqb_spec c 91); [lia|]. destruct (N.eqb_spec c 116); [lia|].
  destruct (N.eqb_spec c 102); [lia|]. destruct (N.eqb_spec c 110); [lia|].
  reflexivity.
Qed.

Section Members.

Variable pv : jsstring -> option (json * jsstring).

(** One member that a comma follows, and one that closes the object. *)
Lemma parseMembers_more (n : nat) (k vin : jsstring) (v : json)
    (r : jsstring) :
  pv vin = Some (v, 44%N :: r) ->
  parseMembers pv (S n) (34%N :: quoteChars k ++ 34%N :: 58%N :: vin)
  = match parseMembers pv n r with
    | Some (ms, r5) => Some ((k, v) :: ms, r5)
    | None => None
    end.
Proof.
  intros H. cbn [parseMembers skipWs isJsonWhitespace N.eqb Pos.eqb orb].
  rewrite parseChars_quoteChars.
  cbn [skipWs isJsonWhitespace N.eqb Pos.eqb orb]. rewrite H.
  reflexivity.
Qed.

Lemma parseMembers_last (n : nat) (k vin : jsstring) (v : json)
    (r : jsstring) :
  pv vin = Some (v, 125%N :: r) ->
  parseMembers pv (S n) (34%N :: quoteChars k ++ 34%N :: 58%N :: vin)
  = Some ([(k, v)], r).
Proof.
  intros H. cbn [parseMembers skipWs isJsonWhitespace N.eqb Pos.eqb orb].
  rewrite parseChars_quoteChars.
  cbn [skipWs isJsonWhitespace N.eqb Pos.eqb orb]. rewrite H.
  reflexivity.
Qed.

End Members.

Lemma parseValue_payload (f : nat) (p : FacetsCursor) :
  parseValue (S (S (S f))) (stringify p)
  = Some (JObj [(lit "text", JStr (text p)); (lit "start", JNum (start p))],
          []).
Proof.
  rewrite stringify_units.
  change (lit "{" ++ quote (lit "text") ++ lit ":" ++ [34%N]
            ++ quoteChars (text p)
            ++ 34%N :: lit "," ++ quote (lit "start") ++ lit ":"
            ++ numberToString (start p) ++ lit "}")
    with (123%N :: 34%N :: quoteChars (lit "text") ++ 34%N :: 58%N
            :: 34%N :: quoteChars (text p)
            ++ 34%N :: 44%N :: 34%N :: quoteChars (lit "start")
            ++ 34%N :: 58%N :: numberToString (start p) ++ [125%N]).
  rewrite parseValue_at_brace.
  rewrite (@parseMembers_more _ (S f) (lit "text") _ (JStr (text p))
             (34%N :: quoteChars (lit "start")
                ++ 34%N :: 58%N :: numberToString (start p) ++ [125%N])).
  - rewrite (@parseMembers_last _ f (lit "start") _ (JNum (start p)) []).
    + reflexivity.
    + apply parseValue_at_number. cbn. repeat split; discriminate.
  - rewrite parseValue_at_quote. now rewrite parseChars_quoteChars.
Qed.

(** [JSON.parse(JSON.stringify(payload))] has the fields of the
    payload. *)
Lemma parse_stringify (p : FacetsCursor) :
  parse (stringify p)
  = Ok (JObj [(lit "text", JStr (text p)); (lit "start", JNum (start p))]).
Proof.
  unfold parse.
  assert (L : exists f, length (stringify p) = S (S f)).
  { rewrite stringify_units. cbn [lit list_ascii_of_string map app length].
    eexists. reflexivity. }
  destruct L as [f ->]. now rewrite parseValue_payload.
Qed.

Lemma asFacetsCursor_payload (p : FacetsCursor) :
  asFacetsCursor
    (JObj [(lit "text", JStr (text p)); (lit "start", JNum (start p))])
  = Ok p.
Proof. destruct p. reflexivity. Qed.

End JsonFacts.

(* ------------------------------------------------------------------ *)
(** ** The cursor codec *)

Lemma decodeCursor_of_btoa (payload : FacetsCursor) (cur : jsstring)
    (items : list Entity) :
  Base64.btoa (Json.stringify payload) = Ok cur ->
  decodeCursor (ContinuationRequest cur items) = Ok payload.
Proof.
  intros H. unfold decodeCursor.
  rewrite (Base64Facts.atob_btoa _ H). cbn [bind].
  rewrite JsonFacts.parse_stringify. cbn [bind].
  apply JsonFacts.asFacetsCursor_payload.
Qed.

Lemma encodeCursor_inv (entities : list Entity) (limit : Z)
    (payload : FacetsCursor) (cur : jsstring) :
  encodeCursor entities limit payload = Ok (Some cur) ->
  (limit < Z.of_nat (length entities))%Z
  /\ Base64.btoa (Json.stringify payload) = Ok cur.
Proof.
  unfold encodeCursor.
  destruct (Z.ltb_spec limit (Z.of_nat (length entities))); [|discriminate].
  destruct (Base64.btoa _) as [c|e]; [|discriminate].
  cbn [bind]. intros [= ->]. auto.
Qed.

(** The quoted form of a byte string is a byte string. *)
Lemma quoteChars_bytes (s : jsstring) :
  isByteString s -> isByteString (Json.quoteChars s).
Proof.
  unfold isByteString. induction 1 as [|c s Hc _ IH]; [constructor|].
  cbn [Json.quoteChars].
  assert (Hh : Json.isHighSurrogate c = false).
  { unfold Json.isHighSurrogate. destruct (N.leb_spec 55296 c); [lia|].
    reflexivity. }
  rewrite Hh. apply Forall_app. split; [|exact IH].
  unfold Json.quoteUnit, Json.unicodeEscape, Json.hexDigit.
  repeat match goal with
         | |- context [if ?b then _ else _] => destruct b
         end; repeat constructor; try lia; div_lia.
Qed.

Lemma uintUnits_bytes (d : Decimal.uint) : isByteString (Json.uintUnits d).
Proof.
  unfold isByteString. induction d; cbn [Json.uintUnits]; constructor;
    (lia || assumption).
Qed.

Lemma stringify_bytes (payload : FacetsCursor) :
  isByteString (text payload) -> isByteString (Json.stringify payload).
Proof.
  intros H. rewrite JsonFacts.stringify_units. unfold isByteString.
  repeat (apply Forall_app; split);
    try (apply Forall_forall; intros c Hc; cbn in Hc;
         repeat (destruct Hc as [<- | Hc]; [lia|]); now destruct Hc).
  - now apply quoteChars_bytes.
  - constructor; [lia|].
    repeat (apply Forall_app; split);
      try (apply Forall_forall; intros c Hc; cbn in Hc;
           repeat (destruct Hc as [<- | Hc]; [lia|]); now destruct Hc).
    unfold Json.numberToString. destruct (start payload).
    + repeat constructor; lia.
    + apply uintUnits_bytes.
    + constructor; [lia | apply uintUnits_bytes].
Qed.

(** C10.  A cursor that [encodeCursor] emits for a payload decodes, in
    a continuation request, to that payload; and a cursor is emitted
    whenever there are more entities than the limit and the text is a
    string of bytes. *)
Theorem decodeCursor_encodeCursor
    (entities : list Entity) (limit : Z) (payload : FacetsCursor)
    (items : list Entity) :
  (forall cur,
     encodeCursor entities limit payload = Ok (Some cur) ->
     decodeCursor (ContinuationRequest cur items) = Ok payload)
  /\ ((limit < Z.of_nat (length entities))%Z ->
      isByteString (text payload) ->
      exists cur, encodeCursor entities limit payload = Ok (Some cur)).
Proof.
  split.
  - intros cur H. apply encodeCursor_inv in H.
    now apply decodeCursor_of_btoa.
  - intros Hl Hb. unfold encodeCursor.
    apply Z.ltb_lt in Hl. rewrite Hl.
    rewrite (Base64Facts.btoa_bytes (stringify_bytes _ Hb)).
    eexists. reflexivity.
Qed.

Lemma decodeCursor_encodeCursor_witness :
  decodeCursor
    (ContinuationRequest (lit "eyJ0ZXh0IjoiYWwiLCJzdGFydCI6Mn0=") [])
  = Ok {| start := 2; text := lit "al" |}.
Proof.
  apply (proj1 (decodeCursor_encodeCursor
                  [Sample.alice; Sample.bob; Sample.opsAlice] 2
                  {| start := 2; text := lit "al" |} [])).
  reflexivity.
Defined.

(** A text with a code unit above 255 cannot be encoded: [btoa]
    throws. *)
Lemma encodeCursor_wide_text_throws :
  encodeCursor [Sample.alice; Sample.bob] 1
    {| start := 1; text := [322%N] |} = Throw InvalidCharacterError.
Proof. reflexivity. Qed.

(* ------------------------------------------------------------------ *)
(** ** The sort *)

Lemma insertBy_perm {A} (cmp : A -> A -> Z) (x : A) (l : list A) :
  Permutation (insertBy cmp x l) (x :: l).
Proof.
  induction l as [|y l IH]; [reflexivity|].
  simpl. destruct (0 <? cmp x y)%Z; [|reflexivity].
  rewrite IH. apply perm_swap.
Qed.

(** Sorting rearranges the list. *)
Lemma sortBy_perm {A} (cmp : A -> A -> Z) (l : list A) :
  Permutation (sortBy cmp l) l.
Proof.
  induction l as [|x l IH]; [reflexivity|].
  simpl. rewrite insertBy_perm. now constructor.
Qed.

Section SortedBy.

Variable A : Type.
Variable cmp : A -> A -> Z.

(** The comparator changes sign when its arguments are swapped. *)
Hypothesis cmp_swap : forall a b, cmp b a = (- cmp a b)%Z.

Let notAfter (a b : A) : Prop := (cmp a b <= 0)%Z.

Lemma insertBy_sorted (x : A) (l : list A) :
  Sorted notAfter l -> Sorted notAfter (insertBy cmp x l).
Proof.
  induction 1 as [|y l Hs IH Hd]; simpl; [repeat constructor|].
  destruct (Z.ltb_spec 0 (cmp x y)) as [Hgt|Hle].
  - constructor; [exact IH|].
    destruct l as [|z l]; simpl.
    + constructor. unfold notAfter. rewrite cmp_swap. lia.
    + destruct (0 <? cmp x z)%Z.
      * inversion_clear Hd. now constructor.
      * constructor. unfold notAfter. rewrite cmp_swap. lia.
  - constructor; [now constructor|]. now constructor.
Qed.

(** In the sorted list no element is greater than the next one. *)
Lemma sortBy_sorted (l : list A) : Sorted notAfter (sortBy cmp l).
Proof.
  induction l as [|x l IH]; [constructor|].
  simpl. now apply insertBy_sorted.
Qed.

End SortedBy.

(** The list the facet fetch slices is sorted by the comparator. *)
Lemma sortBy_compareEntities_sorted (l : list Entity) :
  Sorted (fun a b => (compareEntities a b <= 0)%Z)
         (sortBy compareEntities l).
Proof. apply sortBy_sorted. intros a b. apply compareEntities_swap. Qed.

(* ------------------------------------------------------------------ *)
(** ** The slice window and the next cursor *)

Lemma length_insertBy {A} (cmp : A -> A -> Z) (x : A) (l : list A) :
  length (insertBy cmp x l) = S (length l).
Proof.
  induction l as [|y l IH]; [reflexivity|].
  simpl. destruct (0 <? cmp x y)%Z; simpl; now rewrite ?IH.
Qed.

Lemma length_sortBy {A} (cmp : A -> A -> Z) (l : list A) :
  length (sortBy cmp l) = length l.
Proof.
  induction l as [|x l IH]; [reflexivity|].
  simpl. now rewrite length_insertBy, IH.
Qed.

(** [slice(0, end)] for an end offset that is not negative. *)
Lemma slice0_nonneg {A} (xs : list A) (end_ : Z) :
  (0 <= end_)%Z -> slice0 xs end_ = firstn (Z.to_nat end_) xs.
Proof.
  intros H. unfold slice0.
  destruct (Z.ltb_spec end_ 0); [lia|].
  destruct (Z.min_spec end_ (Z.of_nat (length xs))) as [[_ ->] | [Hle ->]];
    [reflexivity|].
  rewrite Nat2Z.id, firstn_all. symmetry. apply firstn_all2. lia.
Qed.

Lemma length_slice0 {A} (xs : list A) (end_ : Z) :
  (length (slice0 xs end_) <= length xs)%nat.
Proof. unfold slice0. rewrite length_firstn. lia. Qed.

Section Window.

Variable api : CatalogApi.
Variable parse : jsstring -> result CompoundEntityRef.

Lemma fetchWindow_inv selectedKind request options w :
  fetchWindow api parse selectedKind request options = Ok w ->
  exists response facets c,
    getEntityFacets api (facetsRequest selectedKind) = Ok response
    /\ mapM (entityOfRef parse) (rawList response) = Ok facets
    /\ decodeCursor request = Ok c
    /\ w = {| sortedItems :=
                sortBy compareEntities (filter (filterEntity (text c)) facets);
              w_text := text c;
              w_start := start c;
              w_end := start c + limitOf options |}.
Proof.
  unfold fetchWindow.
  destruct (getEntityFacets _ _) as [response|] eqn:E1; [|discriminate].
  cbn [bind]. destruct (mapM _ _) as [facets|] eqn:E2; [|discriminate].
  cbn [bind].
  destruct (decodeCursor request) as [c|] eqn:E3; [|discriminate].
  cbn [bind]. intros [= <-]. now exists response, facets, c.
Qed.

Lemma fetchWindow_intro selectedKind request options response facets c :
  getEntityFacets api (facetsRequest selectedKind) = Ok response ->
  mapM (entityOfRef parse) (rawList response) = Ok facets ->
  decodeCursor request = Ok c ->
  fetchWindow api parse selectedKind request options
  = Ok {| sortedItems :=
            sortBy compareEntities (filter (filterEntity (text c)) facets);
          w_text := text c;
          w_start := start c;
          w_end := start c + limitOf options |}.
Proof.
  intros H1 H2 H3. unfold fetchWindow.
  rewrite H1. cbn [bind]. rewrite H2. cbn [bind]. now rewrite H3.
Qed.

Lemma respond_inv (w : Window) (ret : CombinedResponse) :
  respond w = Ok ret ->
  items ret = slice0 (sortedItems w) (w_end w)
  /\ encodeCursor (sortedItems w) (w_end w)
       {| text := w_text w; start := w_end w |} = Ok (cursor ret).
Proof.
  unfold respond. destruct (encodeCursor _ _ _) as [c|]; [|discriminate].
  cbn [bind]. now intros [= <-].
Qed.

Lemma encodeCursor_present (entities : list Entity) (limit : Z)
    (payload : FacetsCursor) (c : option jsstring) :
  encodeCursor entities limit payload = Ok c ->
  (exists cur, c = Some cur) <-> (limit < Z.of_nat (length entities))%Z.
Proof.
  unfold encodeCursor.
  destruct (Z.ltb_spec limit (Z.of_nat (length entities))) as [Hlt|Hge].
  - destruct (Base64.btoa _) as [cur|]; [|discriminate].
    cbn [bind]. intros [= <-]. split; [auto | now exists cur].
  - intros [= <-]. split; [now intros [cur H] | lia].
Qed.

(** C6.  For a facet fetch in which nothing throws, the response has a
    cursor exactly when the filtered and sorted list has more items
    than the end offset [start + limit]; with no more items than that
    the cursor is left out. *)
Theorem cursor_present_iff_more_items
    (selectedKind : option jsstring) (request : CombinedRequest)
    (options : option FetchOptions)
    (response : FacetsResponse) (facets : list Entity) (c : FacetsCursor)
    (ret : CombinedResponse) :
  getEntityFacets api (facetsRequest selectedKind) = Ok response ->
  mapM (entityOfRef parse) (rawList response) = Ok facets ->
  decodeCursor request = Ok c ->
  fetchBody api parse selectedKind request options = Ok ret ->
  let sorted :=
    sortBy compareEntities (filter (filterEntity (text c)) facets) in
  let end_ := (start c + limitOf options)%Z in
  (truthyOpt selectedKind = true ->
   useFacetsEntities api parse true selectedKind request options = Ok ret)
  /\ ((exists cur, cursor ret = Some cur)
      <-> (end_ < Z.of_nat (length sorted))%Z)
  /\ ((Z.of_nat (length sorted) <= end_)%Z -> cursor ret = None).
Proof.
  intros Hr Hf Hc Hb sorted end_.
  split; [intros T; now apply fetch_of_ok|].
  unfold fetchBody in Hb.
  rewrite (fetchWindow_intro _ _ options Hr Hf Hc) in Hb. cbn [bind] in Hb.
  apply respond_inv in Hb. destruct Hb as [_ He]. cbn in He.
  pose proof (encodeCursor_present _ _ _ He) as P. fold sorted end_ in P.
  split; [exact P|].
  intros Hle. destruct (cursor ret) as [cur|]; [|reflexivity].
  exfalso. assert (end_ < Z.of_nat (length sorted))%Z; [|lia].
  apply P. now exists cur.
Qed.

End Window.

Lemma cursor_present_iff_more_items_witness :
  (exists cur, cursor Sample.firstPage = Some cur)
  <-> (0 + 2 < Z.of_nat (length (sortBy compareEntities
                 (filter (filterEntity (lit "")) Sample.ownerStubs))))%Z.
Proof.
  exact (proj1 (proj2 (@cursor_present_iff_more_items
           Sample.api Sample.parseFullRef (Some (lit "user"))
           (InitialRequest (lit "")) Sample.twoPerPage
           Sample.response Sample.ownerStubs
           {| start := 0; text := lit "" |} Sample.firstPage
           eq_refl eq_refl eq_refl eq_refl))).
Defined.

(* ------------------------------------------------------------------ *)
(** ** Following the cursors of the hook *)

(** C4, as stated, fails: with three owners and the default limit, the
    initial request has the end offset 20; and after a first page of
    two, the request that follows the emitted cursor with the limit 2
    has the end offset 4.  Both exceed the length 3 of the list. *)
Lemma end_offset_exceeds_length :
  fetchWindow Sample.api Sample.parseFullRef (Some (lit "user"))
    (InitialRequest (lit "")) None
  = Ok {| sortedItems := Sample.sortedOwners; w_text := lit "";
          w_start := 0; w_end := 20 |}
  /\ (Z.of_nat (length Sample.sortedOwners) < 20)%Z
  /\ useFacetsEntities Sample.api Sample.parseFullRef true
       (Some (lit "user")) (InitialRequest (lit "")) Sample.twoPerPage
     = Ok Sample.firstPage
  /\ fetchWindow Sample.api Sample.parseFullRef (Some (lit "user"))
       (ContinuationRequest (lit "eyJ0ZXh0IjoiIiwic3RhcnQiOjJ9")
          (items Sample.firstPage)) Sample.twoPerPage
     = Ok {| sortedItems := Sample.sortedOwners; w_text := lit "";
             w_start := 2; w_end := 4 |}
  /\ (Z.of_nat (length Sample.sortedOwners) < 4)%Z.
Proof.
  repeat split; try reflexivity; cbn; lia.
Qed.

(** C4 (amended).  The slice is clamped to the list, so the items of a
    response are never more than the filtered and sorted list has.  For
    a call that follows a cursor the hook emitted, with the catalog
    answering as before, the list is the same and the start offset, the
    end offset of the call that emitted the cursor, is below its
    length. *)
Theorem following_cursor_starts_inside
    (api : CatalogApi) (parse : jsstring -> result CompoundEntityRef)
    (selectedKind : option jsstring)
    (request : CombinedRequest) (options : option FetchOptions)
    (w : Window) (ret : CombinedResponse) (cur : jsstring)
    (its : list Entity) (options' : option FetchOptions) :
  fetchWindow api parse selectedKind request options = Ok w ->
  respond w = Ok ret ->
  cursor ret = Some cur ->
  (length (items ret) <= length (sortedItems w))%nat
  /\ exists w',
       fetchWindow api parse selectedKind (ContinuationRequest cur its)
         options' = Ok w'
       /\ sortedItems w' = sortedItems w
       /\ w_start w' = w_end w
       /\ w_end w' = (w_end w + limitOf options')%Z
       /\ (w_start w' < Z.of_nat (length (sortedItems w')))%Z
       /\ forall ret',
            respond w' = Ok ret' ->
            (length (items ret') <= length (sortedItems w'))%nat.
Proof.
  intros Hw Hr Hc.
  destruct (fetchWindow_inv _ _ _ _ _ Hw)
    as [response [facets [c [E1 [E2 [E3 ->]]]]]].
  destruct (respond_inv _ Hr) as [Hi He]. cbn in Hi, He.
  rewrite Hc in He. destruct (encodeCursor_inv _ _ _ He) as [Hlt Hb].
  split; [rewrite Hi; apply length_slice0|].
  pose proof (decodeCursor_of_btoa _ its Hb) as Hd.
  eexists. split.
  { exact (@fetchWindow_intro api parse selectedKind _ options'
             response facets _ E1 E2 Hd). }
  cbn. repeat split; try reflexivity; try exact Hlt.
  intros ret' Hr'. destruct (respond_inv _ Hr') as [Hi' _].
  rewrite Hi'. apply length_slice0.
Qed.

Lemma following_cursor_starts_inside_witness :
  exists w',
    fetchWindow Sample.api Sample.parseFullRef (Some (lit "user"))
      (ContinuationRequest (lit "eyJ0ZXh0IjoiIiwic3RhcnQiOjJ9")
         (items Sample.firstPage)) Sample.twoPerPage = Ok w'
    /\ sortedItems w' = Sample.sortedOwners
    /\ w_start w' = 2%Z
    /\ w_end w' = 4%Z
    /\ (w_start w' < Z.of_nat (length (sortedItems w')))%Z
    /\ forall ret',
         respond w' = Ok ret' ->
         (length (items ret') <= length (sortedItems w'))%nat.
Proof.
  exact (proj2 (@following_cursor_starts_inside
           Sample.api Sample.parseFullRef (Some (lit "user"))
           (InitialRequest (lit "")) Sample.twoPerPage
           {| sortedItems := Sample.sortedOwners; w_text := lit "";
              w_start := 0; w_end := 2 |}
           Sample.firstPage (lit "eyJ0ZXh0IjoiIiwic3RhcnQiOjJ9")
           (items Sample.firstPage) Sample.twoPerPage
           eq_refl eq_refl eq_refl)).
Defined.

(* ================================================================== *)
(** * Further properties of the two hooks *)

(* ------------------------------------------------------------------ *)
(** ** Helpers *)

Lemma eqb_true_iff (a b : jsstring) : JsString.eqb a b = true <-> a = b.
Proof.
  unfold JsString.eqb. destruct (list_eq_dec N.eq_dec a b); split;
    congruence.
Qed.

Lemma mapM_ok_in {A B} (f : A -> result B) (xs : list A) (ys : list B) :
  mapM f xs = Ok ys ->
  length ys = length xs
  /\ forall y, In y ys -> exists x, In x xs /\ f x = Ok y.
Proof.
  revert ys. induction xs as [|x xs IH]; intros ys; simpl.
  - intros [= <-]. split; [reflexivity | intros y []].
  - destruct (f x) as [b|] eqn:Fx; [|discriminate]. cbn [bind].
    destruct (mapM f xs) as [bs|]; [|discriminate]. cbn [bind].
    intros [= <-]. destruct (IH bs eq_refl) as [Hl Hin].
    split; [simpl; now rewrite Hl|].
    intros y [<- | Hy].
    + exists x. auto.
    + destruct (Hin y Hy) as [x' [Hx' Fx']]. exists x'. auto.
Qed.

Lemma firstn_incl {A} (n : nat) (l : list A) (x : A) :
  In x (firstn n l) -> In x l.
Proof.
  intros H. rewrite <- (firstn_skipn n l). apply in_or_app. now left.
Qed.

Lemma slice0_incl {A} (xs : list A) (end_ : Z) (x : A) :
  In x (slice0 xs end_) -> In x xs.
Proof. unfold slice0. apply firstn_incl. Qed.

Lemma sortBy_In {A} (cmp : A -> A -> Z) (l : list A) (x : A) :
  In x (sortBy cmp l) <-> In x l.
Proof.
  split; apply Permutation_in;
    [apply sortBy_perm | apply Permutation_sym, sortBy_perm].
Qed.

Lemma entityOfRef_stubOf (parse : jsstring -> result CompoundEntityRef)
    (ref : jsstring) (e : Entity) :
  entityOfRef parse ref = Ok e <-> exists r, parse ref = Ok r /\ e = stubOf r.
Proof.
  unfold entityOfRef. destruct (parse ref) as [r|err]; cbn [bind].
  - split.
    + intros [= <-]. now exists r.
    + intros [r' [[= <-] ->]]. reflexivity.
  - split; [discriminate | intros [r' [H _]]; discriminate].
Qed.

(** What a run of the [try] block that returns has gone through. *)
Lemma fetchBody_inv (api : CatalogApi)
    (parse : jsstring -> result CompoundEntityRef)
    (selectedKind : option jsstring) (request : CombinedRequest)
    (options : option FetchOptions) (ret : CombinedResponse) :
  fetchBody api parse selectedKind request options = Ok ret ->
  exists response facets c,
    getEntityFacets api (facetsRequest selectedKind) = Ok response
    /\ mapM (entityOfRef parse) (rawList response) = Ok facets
    /\ decodeCursor request = Ok c
    /\ items ret
       = slice0 (sortBy compareEntities
                   (filter (filterEntity (text c)) facets))
                (start c + limitOf options)
    /\ encodeCursor
         (sortBy compareEntities (filter (filterEntity (text c)) facets))
         (start c + limitOf options)
         {| text := text c; start := start c + limitOf options |}
       = Ok (cursor ret).
Proof.
  unfold fetchBody.
  destruct (fetchWindow api parse selectedKind request options)
    as [w|] eqn:Hw; [|discriminate].
  cbn [bind]. intros Hr.
  destruct (fetchWindow_inv _ _ _ _ _ Hw)
    as [response [facets [c [E1 [E2 [E3 ->]]]]]].
  destruct (respond_inv _ Hr) as [Hi He]. cbn in Hi, He.
  exists response, facets, c. auto.
Qed.

(* ------------------------------------------------------------------ *)
(** ** When the catalog is asked, and for what *)

(** X1.  A hook that is disabled, or has no kind or the empty string as
    its kind, resolves to the response without items whatever the
    catalog, the parser and the request are. *)
Theorem fetch_without_kind_is_empty
    (api : CatalogApi) (parse : jsstring -> result CompoundEntityRef)
    (enabled : bool) (selectedKind : option jsstring)
    (request : CombinedRequest) (options : option FetchOptions) :
  enabled = false \/ selectedKind = None \/ selectedKind = Some [] ->
  refetchRequest enabled selectedKind = None
  /\ useFacetsEntities api parse enabled selectedKind request options
     = Ok emptyResponse.
Proof.
  unfold useFacetsEntities, refetchRequest.
  intros [-> | [-> | ->]]; cbn [negb orb andb truthyOpt truthy];
    rewrite ?orb_true_r, ?andb_false_r; auto.
Qed.

Lemma fetch_without_kind_is_empty_witness :
  useFacetsEntities Sample.api Sample.parseFullRef true (Some [])
    (InitialRequest (lit "al")) None = Ok emptyResponse.
Proof.
  refine (proj2 (@fetch_without_kind_is_empty Sample.api Sample.parseFullRef
                   true (Some []) (InitialRequest (lit "al")) None _)).
  right; right. reflexivity.
Defined.

Lemma filterObj_of_other_kind (k : jsstring) :
  ~ isOwnerKind k -> filterObj (Some k) = None.
Proof.
  intros H. unfold filterObj.
  destruct (truthy k); [|reflexivity].
  destruct (JsString.eqb (toLocaleLowerCase k) (lit "group")) eqn:E1.
  { exfalso. apply H. left. now apply eqb_true_iff. }
  destruct (JsString.eqb (toLocaleLowerCase k) (lit "user")) eqn:E2.
  { exfalso. apply H. right. now apply eqb_true_iff. }
  reflexivity.
Qed.

(** X2.  The request to the catalog asks for the one facet
    [relations.ownedBy]; it carries a filter, on [kind] with the
    selected kind as its value, exactly when the kind is [group] or
    [user] up to case, and no filter otherwise. *)
Theorem server_filter_iff_owner_kind (k : jsstring) :
  req_facets (facetsRequest (Some k)) = [lit "relations.ownedBy"]
  /\ (isOwnerKind k ->
      req_filter (facetsRequest (Some k))
      = Some [ {| key := lit "kind"; values := [k] |} ])
  /\ (~ isOwnerKind k -> req_filter (facetsRequest (Some k)) = None).
Proof.
  split; [reflexivity | split].
  - intros [H | H]; apply filterObj_of_owner_kind; auto.
  - intros H. unfold facetsRequest. cbn [req_filter].
    now apply filterObj_of_other_kind.
Qed.

Lemma server_filter_iff_owner_kind_witness :
  req_filter (facetsRequest (Some (lit "Group")))
  = Some [ {| key := lit "kind"; values := [lit "Group"] |} ]
  /\ req_filter (facetsRequest (Some (lit "Component"))) = None.
Proof.
  split.
  - apply (proj1 (proj2 (server_filter_iff_owner_kind (lit "Group")))).
    left. reflexivity.
  - apply (proj2 (proj2 (server_filter_iff_owner_kind (lit "Component")))).
    intros [H | H]; discriminate H.
Defined.

(** X3.  Two kinds that are neither [group] nor [user] send the same
    request, and so get the same result from any catalog. *)
Theorem other_kinds_fetch_alike
    (api : CatalogApi) (parse : jsstring -> result CompoundEntityRef)
    (enabled : bool) (k1 k2 : jsstring)
    (request : CombinedRequest) (options : option FetchOptions) :
  truthy k1 = true -> truthy k2 = true ->
  ~ isOwnerKind k1 -> ~ isOwnerKind k2 ->
  facetsRequest (Some k1) = facetsRequest (Some k2)
  /\ useFacetsEntities api parse enabled (Some k1) request options
     = useFacetsEntities api parse enabled (Some k2) request options.
Proof.
  intros T1 T2 N1 N2.
  assert (E : facetsRequest (Some k1) = facetsRequest (Some k2)).
  { unfold facetsRequest.
    now rewrite (filterObj_of_other_kind N1), (filterObj_of_other_kind N2). }
  split; [exact E|].
  apply fetch_depends_on_answer; auto. now rewrite E.
Qed.

Lemma other_kinds_fetch_alike_witness :
  useFacetsEntities Sample.api Sample.parseFullRef true
    (Some (lit "Component")) (InitialRequest (lit "")) None
  = useFacetsEntities Sample.api Sample.parseFullRef true
      (Some (lit "api")) (InitialRequest (lit "")) None.
Proof.
  refine (proj2 (@other_kinds_fetch_alike Sample.api Sample.parseFullRef true
                   (lit "Component") (lit "api")
                   (InitialRequest (lit "")) None eq_refl eq_refl _ _)).
  - intros [H | H]; discriminate H.
  - intros [H | H]; discriminate H.
Defined.

(** X4.  When the answer of the catalog has no [relations.ownedBy]
    facet, or an empty one, and the end offset is not negative, the
    fetch returns the response without items and without cursor. *)
Theorem missing_facet_is_empty
    (api : CatalogApi) (parse : jsstring -> result CompoundEntityRef)
    (selectedKind : option jsstring) (request : CombinedRequest)
    (options : option FetchOptions)
    (response : FacetsResponse) (c : FacetsCursor) :
  getEntityFacets api (facetsRequest selectedKind) = Ok response ->
  getFacet facet (facets response) = None
  \/ getFacet facet (facets response) = Some [] ->
  decodeCursor request = Ok c ->
  (0 <= start c + limitOf options)%Z ->
  fetchBody api parse selectedKind request options = Ok emptyResponse.
Proof.
  intros Hr Hf Hc Hend.
  assert (Hraw : rawList response = []).
  { unfold rawList. now destruct Hf as [-> | ->]. }
  unfold fetchBody, fetchWindow. rewrite Hr. cbn [bind].
  rewrite Hraw. cbn [mapM bind]. rewrite Hc. cbn [bind filter sortBy].
  unfold respond, encodeCursor. cbn [sortedItems w_end length Z.of_nat].
  destruct (Z.ltb_spec (start c + limitOf options) 0); [lia|].
  cbn [bind]. unfold slice0. now rewrite firstn_nil.
Qed.

Lemma missing_facet_is_empty_witness :
  fetchBody MoreSamples.facetlessApi Sample.parseFullRef
    (Some (lit "user")) (InitialRequest (lit "al")) None
  = Ok emptyResponse.
Proof.
  refine (@missing_facet_is_empty MoreSamples.facetlessApi
            Sample.parseFullRef (Some (lit "user"))
            (InitialRequest (lit "al")) None {| facets := [] |}
            {| start := 0; text := lit "al" |} eq_refl _ eq_refl _).
  - left. reflexivity.
  - cbn. lia.
Defined.

(* ------------------------------------------------------------------ *)
(** ** What the items of a response are *)

Lemma items_provenance
    (api : CatalogApi) (parse : jsstring -> result CompoundEntityRef)
    (selectedKind : option jsstring) (request : CombinedRequest)
    (options : option FetchOptions) (ret : CombinedResponse) :
  fetchBody api parse selectedKind request options = Ok ret ->
  exists response c,
    getEntityFacets api (facetsRequest selectedKind) = Ok response
    /\ decodeCursor request = Ok c
    /\ (length (items ret) <= length (rawList response))%nat
    /\ forall e, In e (items ret) ->
         filterEntity (text c) e = true
         /\ exists ref r, In ref (rawList response)
                          /\ parse ref = Ok r /\ e = stubOf r.
Proof.
  intros H.
  destruct (fetchBody_inv _ _ _ _ _ H)
    as [response [facets [c [E1 [E2 [E3 [Hi _]]]]]]].
  destruct (mapM_ok_in _ _ E2) as [Hlen Hin].
  exists response, c. split; [exact E1 | split; [exact E3 | split]].
  - rewrite Hi. etransitivity; [apply length_slice0|].
    rewrite length_sortBy, <- Hlen. apply filter_length_le.
  - intros e He. rewrite Hi in He.
    apply slice0_incl, sortBy_In, filter_In in He.
    destruct He as [He Hf]. split; [exact Hf|].
    destruct (Hin e He) as [ref [Href Hp]].
    apply entityOfRef_stubOf in Hp. destruct Hp as [r [Hp ->]].
    now exists ref, r.
Qed.

(** X5.  Every item of a response is the stub of a facet value of the
    answer that the parser accepts, and passes the text filter for the
    text of the decoded cursor; there are no more items than facet
    values. *)
Theorem items_are_filtered_stubs
    (api : CatalogApi) (parse : jsstring -> result CompoundEntityRef)
    (selectedKind : option jsstring) (request : CombinedRequest)
    (options : option FetchOptions) (ret : CombinedResponse) :
  fetchBody api parse selectedKind request options = Ok ret ->
  exists response c,
    getEntityFacets api (facetsRequest selectedKind) = Ok response
    /\ decodeCursor request = Ok c
    /\ (length (items ret) <= length (rawList response))%nat
    /\ forall e, In e (items ret) ->
         filterEntity (text c) e = true
         /\ exists ref r, In ref (rawList response)
                          /\ parse ref = Ok r /\ e = stubOf r.
Proof.
  intros H. destruct (items_provenance _ _ _ _ _ H) as [response [c Hp]].
  exists response, c. exact Hp.
Qed.

Lemma items_are_filtered_stubs_witness :
  exists response c,
    getEntityFacets Sample.api (facetsRequest (Some (lit "user")))
    = Ok response
    /\ decodeCursor (InitialRequest (lit "")) = Ok c
    /\ (length (items Sample.firstPage) <= length (rawList response))%nat
    /\ forall e, In e (items Sample.firstPage) ->
         filterEntity (text c) e = true
         /\ exists ref r, In ref (rawList response)
                          /\ Sample.parseFullRef ref = Ok r /\ e = stubOf r.
Proof.
  exact (@items_are_filtered_stubs Sample.api Sample.parseFullRef
           (Some (lit "user")) (InitialRequest (lit "")) Sample.twoPerPage
           Sample.firstPage eq_refl).
Defined.

(* ------------------------------------------------------------------ *)
(** ** The order of the items *)

Lemma firstn_sorted {A} (R : A -> A -> Prop) (n : nat) (l : list A) :
  Sorted R l -> Sorted R (firstn n l).
Proof.
  revert l. induction n as [|n IH]; intros l H; [constructor|].
  destruct l as [|a l]; [constructor|]. cbn [firstn].
  apply Sorted_inv in H. destruct H as [Hs Hd].
  constructor; [now apply IH|].
  destruct l as [|b l]; [rewrite firstn_nil; constructor|].
  destruct n; cbn [firstn]; constructor. now apply HdRel_inv in Hd.
Qed.

(** Among entities that all have a namespace, a list whose neighbours
    are in order has all its pairs in order. *)
Lemma sorted_with_namespaces (l : list Entity) :
  Forall (fun e => hasNamespace e = true) l ->
  Sorted notAfter l -> StronglySorted notAfter l.
Proof.
  induction l as [|a l IH]; intros Hn Hs; [constructor|].
  apply Sorted_inv in Hs. destruct Hs as [Hs Hd].
  inversion_clear Hn as [|? ? Ha Hl].
  specialize (IH Hl Hs). constructor; [exact IH|].
  destruct l as [|b l]; [constructor|].
  apply HdRel_inv in Hd.
  inversion_clear IH as [|? ? _ Hb]. inversion_clear Hl as [|? ? Hnb Hl'].
  constructor; [exact Hd|].
  rewrite Forall_forall in *. intros x Hx.
  unfold notAfter in *.
  apply compareEntities_le_trans with b; auto.
  - congruence.
  - rewrite Hnb. symmetry. now apply Hl'.
Qed.

Lemma stubOf_hasNamespace (r : CompoundEntityRef) :
  hasNamespace (stubOf r) = truthy (ref_namespace r).
Proof. reflexivity. Qed.

(** X6.  The items of a response are in the order of the comparator:
    no item compares greater than the next one; and when the parser
    never returns an empty namespace, no item compares greater than
    any later one. *)
Theorem items_are_sorted
    (api : CatalogApi) (parse : jsstring -> result CompoundEntityRef)
    (selectedKind : option jsstring) (request : CombinedRequest)
    (options : option FetchOptions) (ret : CombinedResponse) :
  fetchBody api parse selectedKind request options = Ok ret ->
  Sorted notAfter (items ret)
  /\ (namespacesNonEmpty parse -> StronglySorted notAfter (items ret)).
Proof.
  intros H.
  assert (Hs : Sorted notAfter (items ret)).
  { destruct (fetchBody_inv _ _ _ _ _ H)
      as [response [facets [c [_ [_ [_ [Hi _]]]]]]].
    rewrite Hi. unfold slice0. apply firstn_sorted.
    apply sortBy_compareEntities_sorted. }
  split; [exact Hs|].
  intros Hp. apply sorted_with_namespaces; [|exact Hs].
  destruct (items_provenance _ _ _ _ _ H)
    as [response [c [_ [_ [_ Hin]]]]].
  apply Forall_forall. intros e He.
  destruct (Hin e He) as [_ [ref [r [_ [Hr ->]]]]].
  rewrite stubOf_hasNamespace. now apply Hp with ref.
Qed.

Lemma parseFullRef_namespaces : namespacesNonEmpty Sample.parseFullRef.
Proof.
  intros ref r. unfold Sample.parseFullRef.
  destruct (Sample.splitAt 58%N ref) as [[k rest]|]; [|discriminate].
  destruct (Sample.splitAt 47%N rest) as [[ns n]|]; [|discriminate].
  destruct (truthy k), (truthy ns) eqn:E, (truthy n); try discriminate.
  now intros [= <-].
Qed.

Lemma items_are_sorted_witness :
  StronglySorted notAfter (items Sample.firstPage).
Proof.
  exact (proj2 (@items_are_sorted Sample.api Sample.parseFullRef
                  (Some (lit "user")) (InitialRequest (lit ""))
                  Sample.twoPerPage Sample.firstPage eq_refl)
               parseFullRef_namespaces).
Defined.

(* ------------------------------------------------------------------ *)
(** ** How many items, and the end of the results *)

(** X7.  For an end offset that is not negative, a response has as many
    items as the end offset says, or all there are when that is fewer;
    and a response without cursor holds the whole filtered and sorted
    list, every filtered facet value once. *)
Theorem response_without_cursor_is_complete
    (api : CatalogApi) (parse : jsstring -> result CompoundEntityRef)
    (selectedKind : option jsstring) (request : CombinedRequest)
    (options : option FetchOptions) (w : Window) (ret : CombinedResponse) :
  fetchWindow api parse selectedKind request options = Ok w ->
  respond w = Ok ret ->
  (0 <= w_end w)%Z ->
  length (items ret) = Nat.min (Z.to_nat (w_end w)) (length (sortedItems w))
  /\ (cursor ret = None ->
      items ret = sortedItems w
      /\ exists facets,
           (exists response,
              getEntityFacets api (facetsRequest selectedKind) = Ok response
              /\ mapM (entityOfRef parse) (rawList response) = Ok facets)
           /\ Permutation (items ret)
                (filter (filterEntity (w_text w)) facets)).
Proof.
  intros Hw Hr Hend.
  destruct (respond_inv _ Hr) as [Hi He].
  rewrite slice0_nonneg in Hi by exact Hend.
  split; [rewrite Hi; apply length_firstn|].
  intros Hc. rewrite Hc in He.
  assert (Hle : (Z.of_nat (length (sortedItems w)) <= w_end w)%Z).
  { destruct (Z.lt_ge_cases (w_end w) (Z.of_nat (length (sortedItems w))))
      as [Hlt|Hge]; [|exact Hge].
    exfalso.
    assert (X : exists cur, @None jsstring = Some cur)
      by (apply (encodeCursor_present _ _ _ He); exact Hlt).
    destruct X as [cur X]. discriminate X. }
  assert (Hall : items ret = sortedItems w).
  { rewrite Hi. apply firstn_all2. lia. }
  split; [exact Hall|].
  destruct (fetchWindow_inv _ _ _ _ _ Hw)
    as [response [facets [c [E1 [E2 [E3 ->]]]]]].
  exists facets. split; [now exists response|].
  rewrite Hall. cbn [sortedItems w_text]. apply sortBy_perm.
Qed.

Lemma response_without_cursor_is_complete_witness :
  items {| items := Sample.sortedOwners; cursor := None |}
  = Sample.sortedOwners.
Proof.
  refine (proj1 (proj2 (@response_without_cursor_is_complete
            Sample.api Sample.parseFullRef (Some (lit "user"))
            (InitialRequest (lit "")) None
            {| sortedItems := Sample.sortedOwners; w_text := lit "";
               w_start := 0; w_end := 20 |}
            {| items := Sample.sortedOwners; cursor := None |}
            eq_refl eq_refl _) eq_refl)).
  cbn. lia.
Defined.

(** X8.  A negative end offset counts from the end of the list: the
    items are the list without its last [- end] entities, and since
    the length always exceeds a negative number the response has a
    cursor. *)
Theorem negative_end_offset_drops_tail (w : Window) (ret : CombinedResponse) :
  respond w = Ok ret ->
  (w_end w < 0)%Z ->
  items ret
  = firstn (length (sortedItems w) - Z.to_nat (- w_end w)) (sortedItems w)
  /\ exists cur, cursor ret = Some cur.
Proof.
  intros Hr Hneg. destruct (respond_inv _ Hr) as [Hi He]. split.
  - rewrite Hi. unfold slice0.
    destruct (Z.ltb_spec (w_end w) 0); [|lia]. f_equal. lia.
  - apply (encodeCursor_present _ _ _ He). lia.
Qed.

Lemma negative_end_offset_drops_tail_witness :
  useFacetsEntities Sample.api Sample.parseFullRef true (Some (lit "user"))
    (InitialRequest (lit "")) (Some {| limit := Some (-1)%Z |})
  = Ok {| items := [Sample.stub "group" "default" "team-a"; Sample.alice];
          cursor := Some (lit "eyJ0ZXh0IjoiIiwic3RhcnQiOi0xfQ==") |}
  /\ exists cur,
       cursor {| items := [Sample.stub "group" "default" "team-a";
                           Sample.alice];
                 cursor := Some (lit "eyJ0ZXh0IjoiIiwic3RhcnQiOi0xfQ==") |}
       = Some cur.
Proof.
  split; [reflexivity|].
  refine (proj2 (@negative_end_offset_drops_tail
            {| sortedItems := Sample.sortedOwners; w_text := lit "";
               w_start := 0; w_end := -1 |} _ eq_refl _)).
  cbn. lia.
Defined.

(* ------------------------------------------------------------------ *)
(** ** More on the text filter *)

Lemma trimStart_blank (s : jsstring) : isBlank s -> trimStart s = [].
Proof.
  induction 1 as [|c s Hc _ IH]; [reflexivity|].
  cbn [trimStart]. now rewrite Hc.
Qed.

Lemma trim_blank (s : jsstring) : isBlank s -> trim s = [].
Proof. intros H. unfold trim. now rewrite trimStart_blank. Qed.

(** What [trimStart] returns does not start with white space. *)
Lemma trimStart_head (s : jsstring) :
  match trimStart s with
  | [] => True
  | c :: _ => isWhiteSpace c = false
  end.
Proof.
  induction s as [|c s IH]; [exact I|].
  cbn [trimStart]. destruct (isWhiteSpace c) eqn:E; [exact IH | exact E].
Qed.

Lemma trimStart_clean (s : jsstring) :
  match s with [] => True | c :: _ => isWhiteSpace c = false end ->
  trimStart s = s.
Proof.
  destruct s as [|c s]; [reflexivity|]. cbn [trimStart]. now intros ->.
Qed.

Lemma trimStart_idem (s : jsstring) : trimStart (trimStart s) = trimStart s.
Proof. apply trimStart_clean, trimStart_head. Qed.

Lemma trimEnd_idem (s : jsstring) : trimEnd (trimEnd s) = trimEnd s.
Proof. unfold trimEnd. now rewrite rev_involutive, trimStart_idem. Qed.

(** [trimStart] drops a prefix. *)
Lemma trimStart_suffix (s : jsstring) : exists b, s = b ++ trimStart s.
Proof.
  induction s as [|c s [b IH]]; [now exists []|].
  cbn [trimStart]. destruct (isWhiteSpace c).
  - exists (c :: b). cbn [app]. now rewrite <- IH.
  - now exists [].
Qed.

(** [trimEnd] keeps a prefix. *)
Lemma trimEnd_prefix (s : jsstring) : exists b, s = trimEnd s ++ b.
Proof.
  unfold trimEnd. destruct (trimStart_suffix (rev s)) as [b Hb].
  exists (rev b). rewrite <- rev_app_distr, <- Hb. now rewrite rev_involutive.
Qed.

Lemma trim_idem (s : jsstring) : trim (trim s) = trim s.
Proof.
  unfold trim.
  assert (H : trimStart (trimEnd (trimStart s)) = trimEnd (trimStart s)).
  { apply trimStart_clean.
    pose proof (trimStart_head s) as Hh.
    destruct (trimEnd_prefix (trimStart s)) as [b Hb].
    destruct (trimEnd (trimStart s)) as [|c u]; [exact I|].
    rewrite Hb in Hh. exact Hh. }
  rewrite H. apply trimEnd_idem.
Qed.

Lemma isSubstring_trans (a b c : jsstring) :
  isSubstring a b -> isSubstring b c -> isSubstring a c.
Proof.
  intros [p1 [q1 ->]] [p2 [q2 ->]].
  exists (p2 ++ p1), (q1 ++ q2). now rewrite <- !app_assoc.
Qed.

(** X9.  The text filter looks at the search text only through its
    trimmed form, so white space around the text changes nothing and a
    text of white space alone keeps every entity. *)
Theorem filterEntity_ignores_outer_space (text : jsstring) (e : Entity) :
  filterEntity (trim text) e = filterEntity text e
  /\ (isBlank text -> filterEntity text e = true).
Proof.
  split.
  - unfold filterEntity. now rewrite trim_idem.
  - intros H. unfold filterEntity. rewrite (trim_blank H).
    now rewrite includes_empty.
Qed.

Lemma filterEntity_ignores_outer_space_witness :
  filterEntity (lit "   ") Sample.alice = true.
Proof.
  apply (proj2 (filterEntity_ignores_outer_space (lit "   ") Sample.alice)).
  repeat constructor.
Defined.

(** X10.  A longer search text never keeps more: when the trimmed text
    of one search occurs in the trimmed text of another, every entity
    the second keeps the first keeps too, and so for the filtered
    lists. *)
Theorem filterEntity_narrows (t1 t2 : jsstring) :
  isSubstring (trim t1) (trim t2) ->
  (forall e, filterEntity t2 e = true -> filterEntity t1 e = true)
  /\ forall facets,
       incl (filter (filterEntity t2) facets)
            (filter (filterEntity t1) facets).
Proof.
  intros Hsub.
  assert (H : forall e, filterEntity t2 e = true -> filterEntity t1 e = true).
  { intros e. unfold filterEntity.
    rewrite !orb_true_iff.
    destruct (namespace (metadata e)) as [ns|];
      rewrite !includes_iff.
    - intros [[H | H] | H]; eauto using isSubstring_trans.
    - intros [[H | H] | H]; [| discriminate |];
        eauto using isSubstring_trans. }
  split; [exact H|].
  intros facets e He. apply filter_In in He. apply filter_In.
  split; [tauto | apply H; tauto].
Qed.

Lemma filterEntity_narrows_witness :
  incl (filter (filterEntity (lit "ali")) Sample.ownerStubs)
       (filter (filterEntity (lit " al ")) Sample.ownerStubs).
Proof.
  refine (proj2 (@filterEntity_narrows (lit " al ") (lit "ali") _)
                Sample.ownerStubs).
  exists [], (lit "i"). reflexivity.
Defined.

(* ------------------------------------------------------------------ *)
(** ** Entities the comparator cannot tell apart *)

(** X11.  The comparator returns 0 on an entity and itself.  Two
    entities it returns 0 on have the same kind and the same name, and
    when both have a namespace, the same namespace: among the stubs of
    a parser that never returns an empty namespace only duplicates tie. *)
Theorem compareEntities_zero (a b : Entity) :
  compareEntities a a = 0%Z
  /\ (compareEntities a b = 0%Z ->
      kind a = kind b
      /\ name (metadata a) = name (metadata b)
      /\ (hasNamespace a = true -> hasNamespace b = true ->
          namespace (metadata a) = namespace (metadata b))).
Proof.
  split.
  - unfold compareEntities, gtb. rewrite !ltb_irrefl.
    destruct (namespace (metadata a)) as [na|]; [|reflexivity].
    rewrite ltb_irrefl. now destruct (truthy na && truthy na).
  - unfold compareEntities, gtb, hasNamespace, truthyOpt.
    destruct a as [va ka [na nsa]], b as [vb kb [nb nsb]]; cbn.
    destruct (ltb_cases ka kb) as [H1 H2 | -> | H1 H2];
      rewrite ?H1, ?H2, ?ltb_irrefl; try discriminate.
    destruct nsa as [sa|], nsb as [sb|]; cbn;
      try (destruct (ltb_cases na nb) as [H3 H4 | -> | H3 H4];
           rewrite ?H3, ?H4, ?ltb_irrefl; try discriminate;
           intros _; repeat split; try reflexivity; discriminate).
    destruct (truthy sa) eqn:Ta, (truthy sb) eqn:Tb; cbn;
      try (destruct (ltb_cases na nb) as [H3 H4 | -> | H3 H4];
           rewrite ?H3, ?H4, ?ltb_irrefl; try discriminate;
           intros _; repeat split; try reflexivity; discriminate).
    destruct (ltb_cases sa sb) as [H5 H6 | -> | H5 H6];
      rewrite ?H5, ?H6, ?ltb_irrefl; try discriminate.
    destruct (ltb_cases na nb) as [H3 H4 | -> | H3 H4];
      rewrite ?H3, ?H4, ?ltb_irrefl; try discriminate.
    intros _. repeat split; reflexivity.
Qed.

Lemma compareEntities_zero_witness :
  namespace (metadata Sample.alice)
  = namespace (metadata (Sample.stub "user" "default" "alice")).
Proof.
  exact (proj2 (proj2 (proj2 (compareEntities_zero Sample.alice
           (Sample.stub "user" "default" "alice")) eq_refl))
           eq_refl eq_refl).
Defined.

(* ------------------------------------------------------------------ *)
(** ** From one page to the next *)

Lemma btoa_ok_iff (s : jsstring) :
  (exists c, Base64.btoa s = Ok c) <-> isByteString s.
Proof.
  unfold Base64.btoa, isByteString. rewrite Forall_forall.
  destruct (forallb (fun c => (c <=? 255)%N) s) eqn:E.
  - rewrite forallb_forall in E. split; [|now eexists].
    intros _ c Hc. apply N.leb_le. now apply E.
  - split; [intros [c H]; discriminate|].
    intros H. exfalso.
    assert (forallb (fun c => (c <=? 255)%N) s = true); [|congruence].
    apply forallb_forall. intros c Hc. apply N.leb_le. now apply H.
Qed.

(** Whether a payload can be encoded depends on its text alone. *)
Lemma stringify_bytes_same_text (p q : FacetsCursor) :
  text p = text q ->
  isByteString (Json.stringify p) -> isByteString (Json.stringify q).
Proof.
  intros Ht. rewrite !JsonFacts.stringify_units. unfold isByteString.
  rewrite <- Ht. rewrite !Forall_app.
  intros [H1 [H2 [H3 [H4 [H5 H6]]]]].
  clear H6. repeat split; try assumption.
  constructor; [lia|]. rewrite !Forall_app.
  repeat split; try (cbn; repeat constructor; lia).
  unfold Json.numberToString. destruct (start q).
  - repeat constructor; lia.
  - apply uintUnits_bytes.
  - constructor; [lia | apply uintUnits_bytes].
Qed.

(** An encoding that succeeded for a text succeeds for it again. *)
Lemma encodeCursor_again (l1 l2 : list Entity) (e1 e2 : Z)
    (p q : FacetsCursor) (cur : jsstring) :
  text p = text q ->
  encodeCursor l1 e1 p = Ok (Some cur) ->
  exists c, encodeCursor l2 e2 q = Ok c.
Proof.
  intros Ht H. apply encodeCursor_inv in H. destruct H as [_ Hb].
  unfold encodeCursor. destruct (e2 <? Z.of_nat (length l2))%Z;
    [|now eexists].
  assert (Hq : exists c, Base64.btoa (Json.stringify q) = Ok c).
  { apply btoa_ok_iff. apply stringify_bytes_same_text with p; [exact Ht|].
    apply btoa_ok_iff. now exists cur. }
  destruct Hq as [c ->]. now eexists.
Qed.

Lemma firstn_prefix {A} (n m : nat) (l : list A) :
  (n <= m)%nat -> isPrefixOf (firstn n l) (firstn m l).
Proof.
  intros H. exists (skipn n (firstn m l)).
  rewrite <- (firstn_skipn n (firstn m l)) at 1.
  now rewrite firstn_firstn, Nat.min_l.
Qed.

(** X12.  Following a cursor the hook emitted, with the catalog
    answering as before and a limit that is not negative, does not
    throw; the accumulated items of the request play no part; the new
    response holds the first [end + limit] entities of the same list,
    and the items of the response that emitted the cursor are its
    beginning. *)
Theorem following_cursor_extends_items
    (api : CatalogApi) (parse : jsstring -> result CompoundEntityRef)
    (selectedKind : option jsstring)
    (request : CombinedRequest) (options : option FetchOptions)
    (w : Window) (ret : CombinedResponse) (cur : jsstring)
    (options' : option FetchOptions) :
  truthyOpt selectedKind = true ->
  fetchWindow api parse selectedKind request options = Ok w ->
  respond w = Ok ret ->
  cursor ret = Some cur ->
  (0 <= w_end w)%Z -> (0 <= limitOf options')%Z ->
  exists ret',
    (forall its,
       useFacetsEntities api parse true selectedKind
         (ContinuationRequest cur its) options' = Ok ret')
    /\ items ret'
       = firstn (Z.to_nat (w_end w + limitOf options')) (sortedItems w)
    /\ isPrefixOf (items ret) (items ret').
Proof.
  intros Hk Hw Hr Hc Hend Hlim.
  destruct (fetchWindow_inv _ _ _ _ _ Hw)
    as [response [facets [c [E1 [E2 [E3 ->]]]]]].
  destruct (respond_inv _ Hr) as [Hi He]. cbn in Hi, He, Hend |- *.
  rewrite Hc in He.
  pose proof (encodeCursor_inv _ _ _ He) as [_ Hb].
  set (sorted := sortBy compareEntities
                   (filter (filterEntity (text c)) facets)) in *.
  set (end1 := (start c + limitOf options)%Z) in *.
  set (end2 := (end1 + limitOf options')%Z).
  destruct (@encodeCursor_again sorted sorted end1 end2
              {| text := text c; start := end1 |}
              {| text := text c; start := end2 |} cur eq_refl He)
    as [c2 Hc2].
  exists {| items := slice0 sorted end2; cursor := c2 |}.
  split; [|split].
  - intros its. apply fetch_of_ok; [exact Hk|].
    unfold fetchBody.
    rewrite (@fetchWindow_intro api parse selectedKind
               (ContinuationRequest cur its) options' response facets
               {| text := text c; start := end1 |} E1 E2
               (decodeCursor_of_btoa _ its Hb)).
    cbn [bind]. unfold respond. cbn. fold sorted end2. now rewrite Hc2.
  - cbn [items]. apply slice0_nonneg. lia.
  - cbn [items]. rewrite Hi, !slice0_nonneg by lia.
    apply firstn_prefix. lia.
Qed.

Lemma following_cursor_extends_items_witness :
  exists ret',
    (forall its,
       useFacetsEntities Sample.api Sample.parseFullRef true
         (Some (lit "user"))
         (ContinuationRequest (lit "eyJ0ZXh0IjoiIiwic3RhcnQiOjJ9") its)
         Sample.twoPerPage = Ok ret')
    /\ items ret' = firstn (Z.to_nat (2 + 2)) Sample.sortedOwners
    /\ isPrefixOf (items Sample.firstPage) (items ret').
Proof.
  refine (@following_cursor_extends_items
            Sample.api Sample.parseFullRef (Some (lit "user"))
            (InitialRequest (lit "")) Sample.twoPerPage
            {| sortedItems := Sample.sortedOwners; w_text := lit "";
               w_start := 0; w_end := 2 |}
            Sample.firstPage (lit "eyJ0ZXh0IjoiIiwic3RhcnQiOjJ9")
            Sample.twoPerPage eq_refl eq_refl eq_refl eq_refl _ _);
    cbn; lia.
Defined.

(* ------------------------------------------------------------------ *)
(** ** The fetch the effect starts *)

Lemma filter_empty_text (facets : list Entity) :
  filter (filterEntity (lit "")) facets = facets.
Proof.
  apply Base64Facts.filter_id, Forall_forall. intros e _.
  unfold filterEntity. change (trim (lit "")) with (@nil codeunit).
  now rewrite includes_empty.
Qed.

(** X13.  The effect fires exactly when the hook is enabled and has a
    kind.  The fetch it starts, with the catalog answering and every
    facet value parsing, does not throw: it returns the first 20 of all
    the stubs in sorted order, unfiltered, with a cursor exactly when
    there are more than 20. *)
Theorem refetch_lists_first_page
    (api : CatalogApi) (parse : jsstring -> result CompoundEntityRef)
    (enabled : bool) (selectedKind : option jsstring)
    (req : CombinedRequest)
    (response : FacetsResponse) (facets : list Entity) :
  refetchRequest enabled selectedKind = Some req ->
  getEntityFacets api (facetsRequest selectedKind) = Ok response ->
  mapM (entityOfRef parse) (rawList response) = Ok facets ->
  enabled = true /\ truthyOpt selectedKind = true
  /\ exists ret,
       useFacetsEntities api parse enabled selectedKind req None = Ok ret
       /\ items ret = firstn 20 (sortBy compareEntities facets)
       /\ (cursor ret = None <-> (length facets <= 20)%nat).
Proof.
  unfold refetchRequest. intros Hreq E1 E2.
  destruct enabled; [|discriminate]. cbn [andb] in Hreq.
  destruct (truthyOpt selectedKind) eqn:Hk; [|discriminate].
  injection Hreq as <-. split; [reflexivity | split; [reflexivity|]].
  set (sorted := sortBy compareEntities facets).
  assert (Hw : fetchWindow api parse selectedKind
                 (InitialRequest (lit "")) None
               = Ok {| sortedItems := sorted; w_text := lit "";
                       w_start := 0; w_end := 20 |}).
  { rewrite (@fetchWindow_intro api parse selectedKind
               (InitialRequest (lit "")) None response facets
               {| start := 0; text := lit "" |} E1 E2 eq_refl).
    cbn [text start]. now rewrite filter_empty_text. }
  assert (Hlen : length sorted = length facets) by apply length_sortBy.
  destruct (Z.ltb_spec 20 (Z.of_nat (length sorted))) as [Hlt|Hge].
  - destruct (proj2 (btoa_ok_iff
               (Json.stringify {| text := lit ""; start := 20 |})))
      as [cur Hcur].
    { apply stringify_bytes. constructor. }
    exists {| items := slice0 sorted 20; cursor := Some cur |}.
    split; [|split].
    + apply fetch_of_ok; [exact Hk|]. unfold fetchBody. rewrite Hw.
      cbn [bind]. unfold respond, encodeCursor.
      cbn [sortedItems w_end w_text].
      apply Z.ltb_lt in Hlt. rewrite Hlt, Hcur. reflexivity.
    + cbn [items]. now rewrite slice0_nonneg by lia.
    + cbn [cursor]. split; [discriminate | lia].
  - exists {| items := slice0 sorted 20; cursor := None |}.
    split; [|split].
    + apply fetch_of_ok; [exact Hk|]. unfold fetchBody. rewrite Hw.
      cbn [bind]. unfold respond, encodeCursor.
      cbn [sortedItems w_end w_text].
      apply Z.ltb_ge in Hge. now rewrite Hge.
    + cbn [items]. now rewrite slice0_nonneg by lia.
    + cbn [cursor]. split; [lia | reflexivity].
Qed.

Lemma refetch_lists_first_page_witness :
  exists ret,
    useFacetsEntities Sample.api Sample.parseFullRef true
      (Some (lit "group")) (InitialRequest (lit "")) None = Ok ret
    /\ items ret = firstn 20 (sortBy compareEntities Sample.ownerStubs)
    /\ (cursor ret = None <-> (length Sample.ownerStubs <= 20)%nat).
Proof.
  exact (proj2 (proj2 (@refetch_lists_first_page
           Sample.api Sample.parseFullRef true (Some (lit "group"))
           (InitialRequest (lit "")) Sample.response Sample.ownerStubs
           eq_refl eq_refl eq_refl))).
Defined.

(* ------------------------------------------------------------------ *)
(** ** The two hooks and a failing catalog *)

(** X14.  The two hooks treat a failing catalog differently: the query
    fetch rejects with the failure of the catalog, for an initial and
    for a continuation request alike, while the facet fetch resolves
    to the response without items. *)
Theorem hooks_differ_on_failure
    (api : CatalogApi) (parse : jsstring -> result CompoundEntityRef)
    (enabled : bool) (selectedKind : option jsstring)
    (request : CombinedRequest) (options : option FetchOptions)
    (e : exn) :
  (forall q, queryEntities api q = Throw e) ->
  (forall q, getEntityFacets api q = Throw e) ->
  useQueryEntities api request options = Throw e
  /\ useFacetsEntities api parse enabled selectedKind request options
     = Ok emptyResponse.
Proof.
  intros Hq Hf. split.
  - unfold useQueryEntities. destruct request; now rewrite Hq.
  - apply fetch_of_throw with e. unfold fetchBody, fetchWindow.
    now rewrite Hf.
Qed.

Lemma hooks_differ_on_failure_witness :
  useQueryEntities Sample.brokenApi
    (ContinuationRequest (lit "page-2") [Sample.alice]) None
  = Throw (Rejected (lit "503"))
  /\ useFacetsEntities Sample.brokenApi Sample.parseFullRef true
       (Some (lit "user"))
       (ContinuationRequest (lit "page-2") [Sample.alice]) None
     = Ok emptyResponse.
Proof.
  exact (@hooks_differ_on_failure Sample.brokenApi Sample.parseFullRef
           true (Some (lit "user"))
           (ContinuationRequest (lit "page-2") [Sample.alice]) None
           (Rejected (lit "503")) (fun _ => eq_refl) (fun _ => eq_refl)).
Defined.

(* ------------------------------------------------------------------ *)
(** ** The facet sort on the entities it is given *)

(** Close a goal about the rule once every comparison is decided. *)
Ltac rule_finish :=
  solve [ intuition (subst; rewrite ?ltb_irrefl in *;
                     try discriminate; try congruence) ].

(** Decide how two strings compare, then close the goal. *)
Ltac rule_by x y :=
  let H1 := fresh "Hlt" in
  let H2 := fresh "Hgt" in
  destruct (ltb_cases x y) as [H1 H2 | -> | H1 H2];
  rewrite ?H1, ?H2, ?ltb_irrefl; rule_finish.

(** The comparator decides the rule, on all entities. *)
Lemma compareEntities_rule (a b : Entity) :
  (entity_lt a b <-> ruleLess a b)
  /\ (entity_eq a b <-> ruleEqual a b)
  /\ (entity_gt a b <-> ruleLess b a).
Proof.
  unfold entity_lt, entity_eq, entity_gt, compareEntities, gtb,
    ruleLess, ruleEqual, comparedNamespaces, strBefore.
  destruct a as [va ka [na nsa]], b as [vb kb [nb nsb]]; cbn.
  destruct (ltb_cases ka kb) as [H1 H2 | -> | H1 H2];
    rewrite ?H1, ?H2, ?ltb_irrefl; [rule_finish | | rule_finish].
  destruct nsa as [sa|], nsb as [sb|]; cbn;
    [ | rule_by na nb | rule_by na nb | rule_by na nb ].
  rewrite (andb_comm (truthy sb) (truthy sa)).
  destruct (truthy sa && truthy sb); [|rule_by na nb].
  destruct (ltb_cases sa sb) as [H5 H6 | -> | H5 H6];
    rewrite ?H5, ?H6, ?ltb_irrefl; [rule_finish | | rule_finish].
  rule_by na nb.
Qed.

(** What [facets.map] of line 83 builds are stubs of accepted
    references. *)
Lemma facets_are_stubs (parse : jsstring -> result CompoundEntityRef)
    (raw : list jsstring) (facets : list Entity) (e : Entity) :
  mapM (entityOfRef parse) raw = Ok facets ->
  In e facets ->
  exists ref r, In ref raw /\ parse ref = Ok r /\ e = stubOf r.
Proof.
  intros Hm He. destruct (mapM_ok_in _ _ Hm) as [_ Hin].
  destruct (Hin e He) as [ref [Href Hp]].
  apply entityOfRef_stubOf in Hp. destruct Hp as [r [Hp ->]].
  now exists ref, r.
Qed.

(** Two stubs with a namespace that the rule holds equal are the same
    entity. *)
Lemma ruleEqual_stubs (r1 r2 : CompoundEntityRef) :
  truthy (ref_namespace r1) = true -> truthy (ref_namespace r2) = true ->
  ruleEqual (stubOf r1) (stubOf r2) <-> stubOf r1 = stubOf r2.
Proof.
  intros T1 T2. unfold ruleEqual, comparedNamespaces.
  destruct r1 as [k1 n1 m1], r2 as [k2 n2 m2]. cbn in *.
  rewrite T1, T2. cbn. split.
  - intros [-> [-> ->]]. reflexivity.
  - intros [= -> -> ->]. auto.
Qed.

(** C1.  On the entities the sort is given, the stubs of the facet
    values that pass the text filter, built with a parser that never
    returns an empty namespace, the comparator is a total order: it
    decides the kind, namespace, name rule; exactly one of less-than
    by the rule, equality and greater-than by the rule holds, and so
    for the three outcomes of the comparator; less-than is
    transitive. *)
Theorem facet_sort_is_total_order
    (parse : jsstring -> result CompoundEntityRef)
    (raw : list jsstring) (facets : list Entity) (text : jsstring)
    (a b c : Entity) :
  namespacesNonEmpty parse ->
  mapM (entityOfRef parse) raw = Ok facets ->
  In a (filter (filterEntity text) facets) ->
  In b (filter (filterEntity text) facets) ->
  In c (filter (filterEntity text) facets) ->
  (entity_lt a b <-> ruleLess a b)
  /\ (entity_eq a b <-> a = b)
  /\ (entity_gt a b <-> ruleLess b a)
  /\ exactlyOne (ruleLess a b) (a = b) (ruleLess b a)
  /\ exactlyOne (entity_lt a b) (entity_eq a b) (entity_gt a b)
  /\ (ruleLess a b -> ruleLess b c -> ruleLess a c)
  /\ (entity_lt a b -> entity_lt b c -> entity_lt a c).
Proof.
  intros Hp Hm Ha Hb Hc.
  apply filter_In in Ha, Hb, Hc.
  destruct Ha as [Ha _], Hb as [Hb _], Hc as [Hc _].
  destruct (@facets_are_stubs parse raw facets _ Hm Ha)
    as [fa [ra [_ [Pa ->]]]].
  destruct (@facets_are_stubs parse raw facets _ Hm Hb)
    as [fb [rb [_ [Pb ->]]]].
  destruct (@facets_are_stubs parse raw facets _ Hm Hc)
    as [fc [rc [_ [Pc ->]]]].
  pose proof (Hp _ _ Pa) as Ta. pose proof (Hp _ _ Pb) as Tb.
  pose proof (Hp _ _ Pc) as Tc.
  set (a := stubOf ra) in *. set (b := stubOf rb) in *.
  set (c := stubOf rc) in *.
  destruct (compareEntities_rule a b) as [Hlt [Heq Hgt]].
  assert (Heq' : entity_eq a b <-> a = b).
  { rewrite Heq. now apply ruleEqual_stubs. }
  assert (Hone : exactlyOne (entity_lt a b) (entity_eq a b) (entity_gt a b)).
  { unfold exactlyOne, entity_lt, entity_eq, entity_gt.
    destruct (compareEntities_range a b) as [H | [H | H]]; rewrite H.
    - left. repeat split; discriminate.
    - right; left. repeat split; discriminate.
    - right; right. repeat split; discriminate. }
  assert (Htr : forall x y z,
             hasNamespace x = true -> hasNamespace y = true ->
             hasNamespace z = true ->
             entity_lt x y -> entity_lt y z -> entity_lt x z).
  { intros x y z Hx Hy Hz. apply compareEntities_lt_trans; congruence. }
  repeat split; try tauto.
  - unfold exactlyOne in *. tauto.
  - intros H1 H2.
    apply (proj1 (compareEntities_rule a c)).
    apply (Htr a b c Ta Tb Tc).
    + now apply (proj1 (compareEntities_rule a b)).
    + now apply (proj1 (compareEntities_rule b c)).
  - apply (Htr a b c Ta Tb Tc).
Qed.

Lemma facet_sort_is_total_order_witness :
  entity_lt (Sample.stub "group" "default" "team-a") Sample.alice
  /\ entity_lt Sample.alice Sample.bob
  /\ entity_lt (Sample.stub "group" "default" "team-a") Sample.bob.
Proof.
  assert (H12 : entity_lt (Sample.stub "group" "default" "team-a")
                          Sample.alice) by reflexivity.
  assert (H23 : entity_lt Sample.alice Sample.bob) by reflexivity.
  split; [exact H12 | split; [exact H23 |]].
  refine (proj2 (proj2 (proj2 (proj2 (proj2 (proj2
            (@facet_sort_is_total_order Sample.parseFullRef
               (rawList Sample.response) Sample.ownerStubs (lit "")
               (Sample.stub "group" "default" "team-a")
               Sample.alice Sample.bob
               parseFullRef_namespaces eq_refl _ _ _)))))) H12 H23);
    cbn; auto.
Defined.

(* ------------------------------------------------------------------ *)
(** ** The items and the cursor of a facet fetch that does not throw *)

(** C7, as stated, fails for a negative limit: with three owners and
    the limit -1 the end offset is -1, the hook returns two items, not
    the empty prefix [(0, -1)], and the cursor it emits has the start
    -1, which is not the number of items shown. *)
Lemma negative_limit_is_no_prefix :
  useFacetsEntities Sample.api Sample.parseFullRef true (Some (lit "user"))
    (InitialRequest (lit "")) (Some {| limit := Some (-1)%Z |})
  = Ok {| items := [Sample.stub "group" "default" "team-a"; Sample.alice];
          cursor := Some (lit "eyJ0ZXh0IjoiIiwic3RhcnQiOi0xfQ==") |}
  /\ firstn (Z.to_nat (0 + -1)) Sample.sortedOwners = []
  /\ decodeCursor
       (ContinuationRequest (lit "eyJ0ZXh0IjoiIiwic3RhcnQiOi0xfQ==") [])
     = Ok {| start := -1; text := lit "" |}.
Proof. repeat split; reflexivity. Qed.

(** C7 (amended).  An enabled facet fetch with a kind in which nothing
    throws, the catalog answering, every facet value parsing, the
    cursor decoding to [start] and the next cursor encoding, resolves
    to the slice [(0, start + limit)] of the filtered and sorted list
    together with that cursor.  For an end offset that is not negative
    the items are the prefix of that length, a cumulative slice from
    the beginning; for a negative one they are the list without its
    last [- (start + limit)] entities.  The cursor, when there is one,
    decodes to the same text and to [start + limit] as its [start],
    which for an end offset that is not negative is the number of
    items returned. *)
Theorem fetch_returns_cumulative_slice
    (api : CatalogApi) (parse : jsstring -> result CompoundEntityRef)
    (selectedKind : option jsstring) (request : CombinedRequest)
    (options : option FetchOptions)
    (response : FacetsResponse) (facets : list Entity) (c : FacetsCursor)
    (next : option jsstring) :
  truthyOpt selectedKind = true ->
  getEntityFacets api (facetsRequest selectedKind) = Ok response ->
  mapM (entityOfRef parse) (rawList response) = Ok facets ->
  decodeCursor request = Ok c ->
  let sorted :=
    sortBy compareEntities (filter (filterEntity (text c)) facets) in
  let end_ := (start c + limitOf options)%Z in
  encodeCursor sorted end_ {| text := text c; start := end_ |} = Ok next ->
  exists ret,
    useFacetsEntities api parse true selectedKind request options = Ok ret
    /\ cursor ret = next
    /\ items ret = slice0 sorted end_
    /\ ((0 <= end_)%Z -> items ret = firstn (Z.to_nat end_) sorted)
    /\ ((end_ < 0)%Z ->
        items ret = firstn (length sorted - Z.to_nat (- end_)) sorted)
    /\ forall cur its,
         next = Some cur ->
         decodeCursor (ContinuationRequest cur its)
         = Ok {| start := end_; text := text c |}
         /\ ((0 <= end_)%Z -> Z.of_nat (length (items ret)) = end_).
Proof.
  intros Hk Hr Hf Hc sorted end_ He.
  exists {| items := slice0 sorted end_; cursor := next |}.
  split; [|split; [reflexivity | split; [reflexivity | split; [|split]]]].
  - apply fetch_of_ok; [exact Hk|]. unfold fetchBody.
    rewrite (@fetchWindow_intro api parse selectedKind request options
               response facets c Hr Hf Hc).
    cbn [bind]. unfold respond. cbn [sortedItems w_end w_text].
    fold sorted end_. now rewrite He.
  - intros H0. cbn [items]. now apply slice0_nonneg.
  - intros Hneg. cbn [items]. unfold slice0.
    destruct (Z.ltb_spec end_ 0); [|lia]. f_equal. lia.
  - intros cur its ->.
    destruct (encodeCursor_inv _ _ _ He) as [Hlt Hb].
    split; [now apply decodeCursor_of_btoa|].
    intros H0. cbn [items]. rewrite slice0_nonneg by exact H0.
    rewrite length_firstn. lia.
Qed.

Lemma fetch_returns_cumulative_slice_witness :
  exists ret,
    useFacetsEntities Sample.api Sample.parseFullRef true
      (Some (lit "user")) (InitialRequest (lit "")) Sample.twoPerPage
    = Ok ret
    /\ cursor ret = Some (lit "eyJ0ZXh0IjoiIiwic3RhcnQiOjJ9")
    /\ items ret = firstn 2 Sample.sortedOwners
    /\ decodeCursor
         (ContinuationRequest (lit "eyJ0ZXh0IjoiIiwic3RhcnQiOjJ9") [])
       = Ok {| start := 2; text := lit "" |}
    /\ Z.of_nat (length (items ret)) = 2%Z.
Proof.
  destruct (@fetch_returns_cumulative_slice
              Sample.api Sample.parseFullRef (Some (lit "user"))
              (InitialRequest (lit "")) Sample.twoPerPage
              Sample.response Sample.ownerStubs
              {| start := 0; text := lit "" |}
              (Some (lit "eyJ0ZXh0IjoiIiwic3RhcnQiOjJ9"))
              eq_refl eq_refl eq_refl eq_refl eq_refl)
    as [ret [Hu [Hcur [_ [Hpre [_ Hdec]]]]]].
  assert (H0 : (0 <= 0 + limitOf Sample.twoPerPage)%Z) by (cbn; lia).
  destruct (Hdec _ [] eq_refl) as [Hd Hn].
  exists ret.
  split; [exact Hu | split; [exact Hcur | split; [exact (Hpre H0) |]]].
  split; [exact Hd | exact (Hn H0)].
Defined.
